(** * etcd: persisted-state verifier and v2 request dispatch

    A shallow embedding of two Go files of the repository:

    - package [verify] ([Verify], [VerifyIfEnabled], [MustVerifyIfEnabled],
      [validateConsistentIndex], [validateWal]);
    - package [etcdserver], the v2 request handlers ([RequestV2.Handle],
      [EtcdServer.Do], [processRaftRequest] and the two implementations of
      [RequestV2Handler]).

    Go code is effectful; it is embedded in a state monad whose result is an
    [outcome]: a normal return, a panic that unwinds to the caller, the end
    of the process ([os.Exit], reached through [zap]'s [Fatal]), or a
    goroutine that stays parked in a [select]. *)

From stdpp Require Import base option list gmap strings pretty.
From Stdlib Require Import NArith ZArith Lia.

Set Default Proof Using "Type".
Open Scope string_scope.

(** ** Outcomes and the state monad *)

Inductive outcome (A : Type) : Type :=
| Ret (a : A)
| Panic (v : string)
| Exit (code : Z)
| Blocked.
Arguments Ret {A} a.
Arguments Panic {A} v.
Arguments Exit {A} code.
Arguments Blocked {A}.

Definition M (S A : Type) : Type := S -> outcome A * S.

Definition ret {S A} (a : A) : M S A := fun s => (Ret a, s).

Definition bind {S A B} (m : M S A) (k : A -> M S B) : M S B :=
  fun s =>
    match m s with
    | (Ret a, s') => k a s'
    | (Panic v, s') => (Panic v, s')
    | (Exit c, s') => (Exit c, s')
    | (Blocked, s') => (Blocked, s')
    end.

Definition panic {S A} (v : string) : M S A := fun s => (Panic v, s).
Definition get {S} : M S S := fun s => (Ret s, s).
Definition modify {S} (f : S -> S) : M S unit := fun s => (Ret tt, f s).

Declare Scope go_scope.
Delimit Scope go_scope with go.
Notation "'let!' x ':=' m 'in' k" := (bind m (fun x => k))
  (at level 10, x name, m at level 100, k at level 200, only parsing) : go_scope.
Notation "'let!' ' pat ':=' m 'in' k" := (bind m (fun x => match x with pat => k end))
  (at level 10, pat pattern, m at level 100, k at level 200, only parsing) : go_scope.
Open Scope go_scope.

(** [defer d] around [body]: [d] runs when [body] returns or panics, and the
    outcome of [body] is what the caller sees unless [d] itself does not
    return. Nothing runs once the process has exited or the goroutine is
    parked. *)
Definition with_defer {S A} (d : M S unit) (body : M S A) : M S A :=
  fun s =>
    match body s with
    | (Ret a, s') =>
        match d s' with (Ret _, s'') => (Ret a, s'') | (Panic v, s'') => (Panic v, s'')
                      | (Exit c, s'') => (Exit c, s'') | (Blocked, s'') => (Blocked, s'') end
    | (Panic v, s') =>
        match d s' with (Ret _, s'') => (Panic v, s'') | (Panic v', s'') => (Panic v', s'')
                      | (Exit c, s'') => (Exit c, s'') | (Blocked, s'') => (Blocked, s'') end
    | (Exit c, s') => (Exit c, s')
    | (Blocked, s') => (Blocked, s')
    end.

(** A Go pointer that may be nil; reading through nil panics. *)
Definition deref {S A} (p : option A) : M S A :=
  match p with
  | Some a => ret a
  | None => panic "runtime error: invalid memory address or nil pointer dereference"
  end.

(** [s[i]] on a slice, with Go's bounds check ([i] is an [int]); the
    message of the runtime omits the length for a negative index. *)
Definition slice_index {S A} (s : list A) (i : Z) : M S A :=
  match (if bool_decide (0 <= i)%Z then s !! Z.to_nat i else None) with
  | Some a => ret a
  | None =>
      if bool_decide (i < 0)%Z
      then panic ("runtime error: index out of range [" +:+ pretty i +:+ "]")
      else panic ("runtime error: index out of range [" +:+ pretty i +:+ "] with length "
                  +:+ pretty (length s))
  end.

(** * Package verify *)

Module verify.

Definition ENV_VERIFY : string := "ETCD_VERIFY".
Definition ENV_VERIFY_ALL_VALUE : string := "all".

(** A non-nil [*zap.Logger]: the no-op logger of [zap.NewNop], or a logger
    that writes to a named sink. *)
Inductive zap_Logger : Type :=
| NewNop
| NewLogger (sink : string).

Record Config : Type := {
  DataDir : string;
  ExactIndex : bool;
  Logger : option zap_Logger
}.

(** Go [error] values of this package are messages. *)
Definition error : Type := string.

(** [walpb.Snapshot] and [raftpb.HardState]; [uint64] fields are only
    compared, never computed with. *)
Record Snapshot : Type := { Snapshot_Index : N; Snapshot_Term : N }.
Record HardState : Type := { HardState_Term : N; HardState_Vote : N; HardState_Commit : N }.

(** What the verifier reads of a backend: the two markers stored by the
    consistent-index bucket. *)
Record Backend : Type := { consistent_index : N; consistent_term : N }.

Record BackendConfig : Type := { Path : string; BackendConfig_Logger : option zap_Logger }.

Inductive level : Type := InfoLevel | ErrorLevel | FatalLevel.

Inductive field : Type :=
| zap_String (key val : string)
| zap_Uint64 (key : string) (val : N)
| zap_Error (err : error).

(** What a run does to the outside: log records and reads of the data
    directory. *)
Inductive event : Type :=
| EvLog (sink : string) (lvl : level) (msg : string) (fields : list field)
| EvBackendNew (cfg : BackendConfig)
| EvBackendClose
| EvReadConsistentIndex
| EvValidSnapshotEntries (walDir : string)
| EvWalVerify (walDir : string) (snapshot : Snapshot).

Definition trace : Type := list event.

(** A collaborator either returns or panics. *)
Inductive fallible (A : Type) : Type :=
| Returns (a : A)
| Panics (v : string).
Arguments Returns {A} a.
Arguments Panics {A} v.

(** The collaborators of the package, as seen from it: the process
    environment, the data-directory layout, the backend and the
    write-ahead log reader. *)
Record World : Type := {
  environ : gmap string string;
  ToBackendFileName : string -> string;
  ToWalDir : string -> string;
  backend_New : BackendConfig -> fallible Backend;
  ValidSnapshotEntries : option zap_Logger -> string -> fallible (list Snapshot * option error);
  wal_Verify : option zap_Logger -> string -> Snapshot -> fallible (option HardState * option error)
}.

(** [os.Getenv]: the value of the variable, empty when it is unset. *)
Definition Getenv (w : World) (key : string) : string := default "" (environ w !! key).

Definition call {A} (ev : event) (r : fallible A) : M trace A :=
  fun tr =>
    match r with
    | Returns a => (Ret a, (tr ++ [ev])%list)
    | Panics v => (Panic v, (tr ++ [ev])%list)
    end.

Definition emit (ev : event) : M trace unit := modify (fun tr => (tr ++ [ev])%list).

(** A method of [*zap.Logger] called through a nil pointer reads a field of
    the receiver and panics; the no-op logger discards the record. *)
Definition zap_log (lg : option zap_Logger) (lvl : level) (msg : string) (fields : list field)
  : M trace unit :=
  match lg with
  | None => panic "runtime error: invalid memory address or nil pointer dereference"
  | Some NewNop => ret tt
  | Some (NewLogger sink) => emit (EvLog sink lvl msg fields)
  end.

Definition zap_Info lg msg fields : M trace unit := zap_log lg InfoLevel msg fields.
Definition zap_Error_ lg msg fields : M trace unit := zap_log lg ErrorLevel msg fields.

(** [Logger.Fatal] writes the record and then calls [os.Exit(1)]. *)
Definition zap_Fatal {A} lg msg fields : M trace A :=
  let! _ := zap_log lg FatalLevel msg fields in
  fun tr => (Exit 1, tr).

(** [fmt.Errorf] with two [%v] verbs applied to [uint64] values. *)
Definition Errorf (pre : string) (a : N) (mid : string) (b : N) (post : string) : error :=
  pre +:+ pretty a +:+ mid +:+ pretty b +:+ post.

Definition validateConsistentIndex (cfg : Config) (hardstate : option HardState)
    (snapshot : option Snapshot) (be : Backend) : M trace (option error) :=
  let! _ := emit EvReadConsistentIndex in
  let index := consistent_index be in
  let term := consistent_term be in
  let! c1 := (if ExactIndex cfg
              then let! hs := deref hardstate in ret (negb (index =? HardState_Commit hs)%N)
              else ret false) in
  if c1 : bool then
    let! hs := deref hardstate in
    ret (Some (Errorf "backend.ConsistentIndex (" index
                      ") expected == WAL.HardState.commit (" (HardState_Commit hs) ")"))
  else
  let! c2 := (if ExactIndex cfg
              then let! hs := deref hardstate in ret (negb (term =? HardState_Term hs)%N)
              else ret false) in
  if c2 : bool then
    let! hs := deref hardstate in
    ret (Some (Errorf "backend.Term (" term
                      ") expected == WAL.HardState.term, (" (HardState_Term hs) ")"))
  else
  let! hs := deref hardstate in
  if (HardState_Commit hs <? index)%N then
    ret (Some (Errorf "backend.ConsistentIndex (" index
                      ")必须是<= WAL.HardState.commit (" (HardState_Commit hs) ")"))
  else
  if (HardState_Term hs <? term)%N then
    ret (Some (Errorf "backend.Term (" term
                      ")必须是<= WAL.HardState.term, (" (HardState_Term hs) ")"))
  else
  let! snap := deref snapshot in
  if (index <? Snapshot_Index snap)%N then
    ret (Some (Errorf "backend.ConsistentIndex (" index
                      ")必须是>= last snapshot index (" (Snapshot_Index snap) ")"))
  else
  let! _ := zap_Info (Logger cfg) "verification: consistentIndex OK"
              [zap_Uint64 "backend-consistent-index" index;
               zap_Uint64 "hardstate-commit" (HardState_Commit hs)] in
  ret None.

Definition validateWal (w : World) (cfg : Config)
  : M trace (option Snapshot * option HardState * option error) :=
  let walDir := ToWalDir w (DataDir cfg) in
  let! '(walSnaps, err) := call (EvValidSnapshotEntries walDir)
                                (ValidSnapshotEntries w (Logger cfg) walDir) in
  match err with
  | Some e => ret (None, None, Some e)
  | None =>
      let! snapshot := slice_index walSnaps (Z.of_nat (length walSnaps) - 1) in
      let! '(hardstate, err) := call (EvWalVerify walDir snapshot)
                                     (wal_Verify w (Logger cfg) walDir snapshot) in
      match err with
      | Some e => ret (None, None, Some e)
      | None => ret (Some snapshot, hardstate, None)
      end
  end.

(** The statements of [Verify] that follow [defer be.Close()]. The first
    component is the local variable [err] when the function returns (it is
    assigned by the call of [validateWal] only), the second is the returned
    value. *)
Definition Verify_checks (w : World) (cfg : Config) (be : Backend)
  : M trace (option error * option error) :=
  let! '(snapshot, hardstate, err) := validateWal w cfg in
  match err with
  | Some e => ret (Some e, Some e)
  | None =>
      let! r := validateConsistentIndex cfg hardstate snapshot be in
      ret (None, r)
  end.

Definition Verify (w : World) (cfg : Config) : M trace (option error) :=
  fun tr0 =>
    let lg := Some (match Logger cfg with Some l => l | None => NewNop end) in
    let data_dir := zap_String "data-dir" (DataDir cfg) in
    let '(_, tr1) := zap_Info lg "verification of persisted state" [data_dir] tr0 in
    let beConfig := {| Path := ToBackendFileName w (DataDir cfg);
                       BackendConfig_Logger := Logger cfg |} in
    let '(o, tr2) :=
      (let! be := call (EvBackendNew beConfig) (backend_New w beConfig) in
       with_defer (emit EvBackendClose) (Verify_checks w cfg be)) tr1 in
    (* the deferred closure that reports the result *)
    match o with
    | Ret (Some err, r) =>
        let '(_, tr3) := zap_Error_ lg "verification of persisted state failed"
                                    [data_dir; zap_Error err] tr2 in
        (Ret r, tr3)
    | Ret (None, r) =>
        let '(_, tr3) := zap_Info lg "verification of persisted state successful"
                                  [data_dir] tr2 in
        (Ret r, tr3)
    | Panic v =>
        let '(_, tr3) := zap_Error_ lg "verification of persisted state failed"
                                    [data_dir] tr2 in
        (Panic v, tr3)
    | Exit c => (Exit c, tr2)
    | Blocked => (Blocked, tr2)
    end.

Definition VerifyIfEnabled (w : World) (cfg : Config) : M trace (option error) :=
  if String.eqb (Getenv w ENV_VERIFY) ENV_VERIFY_ALL_VALUE then Verify w cfg
  else ret None.

Definition MustVerifyIfEnabled (w : World) (cfg : Config) : M trace unit :=
  let! err := VerifyIfEnabled w cfg in
  match err with
  | Some e => zap_Fatal (Logger cfg) "验证失败" [zap_String "data-dir" (DataDir cfg); zap_Error e]
  | None => ret tt
  end.

(** ** Notions used to state the properties *)

(** The outcome of a computation does not depend on what was traced
    before it. *)
Definition oblivious {A} (m : M trace A) : Prop :=
  forall tr tr', fst (m tr) = fst (m tr').

(** A computation that returns or panics: it neither ends the process nor
    parks the goroutine. *)
Definition returns_or_panics {A} (o : outcome A) : Prop :=
  match o with
  | Ret _ | Panic _ => True
  | Exit _ | Blocked => False
  end.

Definition no_exit {A} (m : M trace A) : Prop :=
  forall tr, returns_or_panics (fst (m tr)).

(** A computation only adds to the trace. *)
Definition grows {A} (m : M trace A) : Prop :=
  forall tr, exists evs, snd (m tr) = (tr ++ evs)%list.

(** The backend configuration that [Verify] builds. *)
Definition Verify_beConfig (w : World) (cfg : Config) : BackendConfig :=
  {| Path := ToBackendFileName w (DataDir cfg); BackendConfig_Logger := Logger cfg |}.

(** What [Verify] makes of the outcome of its checks: a returned value is
    returned, a panic is raised again. *)
Definition Verify_result (o : outcome (option error * option error)) : outcome (option error) :=
  match o with
  | Ret (_, r) => Ret r
  | Panic v => Panic v
  | Exit c => Exit c
  | Blocked => Blocked
  end.

(** The invariants of the consistent index in the order of the
    specification, each with the error that names it; [first_violated]
    picks the error of the first one that does not hold. *)
Definition invariants_in_order (exact : bool) (I T C HT S : N) : list (bool * error) :=
  [ (implb exact (I =? C)%N,
     Errorf "backend.ConsistentIndex (" I ") expected == WAL.HardState.commit (" C ")");
    (implb exact (T =? HT)%N,
     Errorf "backend.Term (" T ") expected == WAL.HardState.term, (" HT ")");
    ((I <=? C)%N,
     Errorf "backend.ConsistentIndex (" I ")必须是<= WAL.HardState.commit (" C ")");
    ((T <=? HT)%N,
     Errorf "backend.Term (" T ")必须是<= WAL.HardState.term, (" HT ")");
    ((S <=? I)%N,
     Errorf "backend.ConsistentIndex (" I ")必须是>= last snapshot index (" S ")") ].

Fixpoint first_violated (l : list (bool * error)) : option error :=
  match l with
  | [] => None
  | (true, _) :: l' => first_violated l'
  | (false, e) :: _ => Some e
  end.

(** ** Sample data directories *)

Definition sample_world (snaps : list Snapshot) (hs : HardState) (be : Backend) : World :=
  {| environ := {[ ENV_VERIFY := ENV_VERIFY_ALL_VALUE ]};
     ToBackendFileName := fun d => d +:+ "/member/snap/db";
     ToWalDir := fun d => d +:+ "/member/wal";
     backend_New := fun _ => Returns be;
     ValidSnapshotEntries := fun _ _ => Returns (snaps, None);
     wal_Verify := fun _ _ _ => Returns (Some hs, None) |}.

Definition sample_config (exact : bool) : Config :=
  {| DataDir := "/var/lib/etcd"; ExactIndex := exact; Logger := Some (NewLogger "stderr") |}.

Definition sample_hardstate (term commit : N) : HardState :=
  {| HardState_Term := term; HardState_Vote := 1; HardState_Commit := commit |}.

Definition sample_snapshot (index : N) : Snapshot :=
  {| Snapshot_Index := index; Snapshot_Term := 1 |}.

Definition sample_backend (index term : N) : Backend :=
  {| consistent_index := index; consistent_term := term |}.

(** A data directory whose backend file cannot be opened: [backend.New]
    panics. *)
Definition broken_backend_world : World :=
  {| environ := {[ ENV_VERIFY := ENV_VERIFY_ALL_VALUE ]};
     ToBackendFileName := fun d => d +:+ "/member/snap/db";
     ToWalDir := fun d => d +:+ "/member/wal";
     backend_New := fun _ => Panics "failed to open database";
     ValidSnapshotEntries := fun _ _ => Returns ([sample_snapshot 0], None);
     wal_Verify := fun _ _ _ => Returns (Some (sample_hardstate 1 0), None) |}.

(** A data directory whose write-ahead log cannot be read. *)
Definition unreadable_wal_world : World :=
  {| environ := {[ ENV_VERIFY := ENV_VERIFY_ALL_VALUE ]};
     ToBackendFileName := fun d => d +:+ "/member/snap/db";
     ToWalDir := fun d => d +:+ "/member/wal";
     backend_New := fun _ => Returns (sample_backend 0 0);
     ValidSnapshotEntries := fun _ _ => Returns ([], Some "wal: file not found");
     wal_Verify := fun _ _ _ => Returns (None, Some "wal: file not found") |}.

(** The same directory as [w], seen by a process whose environment is
    [env]. *)
Definition with_environ (env : gmap string string) (w : World) : World :=
  {| environ := env;
     ToBackendFileName := ToBackendFileName w;
     ToWalDir := ToWalDir w;
     backend_New := backend_New w;
     ValidSnapshotEntries := ValidSnapshotEntries w;
     wal_Verify := wal_Verify w |}.

End verify.

(** * Package etcdserver: the v2 request handlers *)

Module etcdserver.

(** Go [error] values met by the handlers: the two fixed errors of the
    package that this file returns, and every other error by its message. *)
Inductive error : Type :=
| ErrStopped
| ErrUnknownMethod
| ErrOther (msg : string).

(** What [ctx.Err()] reports once the context is done. *)
Inductive ctx_error : Type := Canceled | DeadlineExceeded.

(** A [context.Context], by identity; whether it is done is part of the
    state. *)
Definition Context : Type := nat.

(** [pb.Request]: the fields that this file reads or writes, and the value. *)
Record RequestV2 : Type := {
  ID : N;
  Method : string;
  Path : string;
  Val : string;
  Wait : bool;
  Since : N;
  Recursive : bool;
  Sorted : bool;
  Quorum : bool;
  Stream : bool
}.

Definition set_ID (id : N) (r : RequestV2) : RequestV2 :=
  {| ID := id; Method := Method r; Path := Path r; Val := Val r; Wait := Wait r;
     Since := Since r; Recursive := Recursive r; Sorted := Sorted r; Quorum := Quorum r;
     Stream := Stream r |}.

Definition set_Method (m : string) (r : RequestV2) : RequestV2 :=
  {| ID := ID r; Method := m; Path := Path r; Val := Val r; Wait := Wait r;
     Since := Since r; Recursive := Recursive r; Sorted := Sorted r; Quorum := Quorum r;
     Stream := Stream r |}.

(** [*v2store.Event] and [v2store.Watcher] are handles for this file. *)
Inductive v2store_Event : Type := EventRef (n : N).
Inductive v2store_Watcher : Type := WatcherRef (n : N).

Record Response : Type := {
  Term : N;
  Index : N;
  Event : option v2store_Event;
  Watcher : option v2store_Watcher;
  Err : option error
}.

(** [Response{}] *)
Definition Response_zero : Response :=
  {| Term := 0; Index := 0; Event := None; Watcher := None; Err := None |}.

(** [membership.ShouldApplyV3] *)
Inductive ShouldApplyV3 : Type := ApplyBoth | ApplyV2storeOnly.

(** An [interface{}] value sent through a pending slot. *)
Inductive iface : Type :=
| INil
| IResponse (resp : Response)
| IOther (type_name : string).

(** What the other goroutines may do while a caller is suspended: the apply
    loop (or anyone else) triggers an id, a context is cancelled or times
    out, the server starts stopping, time passes, raft makes progress. *)
Inductive env_action : Type :=
| EnvTrigger (id : N) (x : iface)
| EnvCancel (ctx : Context) (e : ctx_error)
| EnvStop
| EnvTick (dt : N)
| EnvRaft (term commit : N).

Section server.

(** States of the v2 store (with whatever the applier acts on) and of the
    request-id generator. *)
Variables (Store IDGen : Type).

(** The server and its surroundings. [w] and [chans] are the Pending-Call
    Table [s.w] and the channels it handed out (a channel is its address in
    [chans]; its contents are the values sent and not yet received);
    [proposed] lists the data given to [s.r.Propose]; [stopping] tells
    whether the channel [s.stopping] is closed; [sched] and [pick] are what
    the other goroutines will do at the next suspension and which ready case
    the [select] will take. *)
Record World : Type := {
  w : gmap N nat;
  chans : list (list iface);
  proposed : list (list Byte.byte);
  stopping : bool;
  store_st : Store;
  idgen_st : IDGen;
  term : N;
  committedIndex : N;
  now : N;
  ctx_done : gmap nat ctx_error;
  sched : list env_action;
  pick : nat;
  stdout : list string
}.

Definition upd_w (f : gmap N nat -> gmap N nat) (σ : World) : World :=
  {| w := f (w σ); chans := chans σ; proposed := proposed σ; stopping := stopping σ;
     store_st := store_st σ; idgen_st := idgen_st σ; term := term σ;
     committedIndex := committedIndex σ; now := now σ; ctx_done := ctx_done σ;
     sched := sched σ; pick := pick σ; stdout := stdout σ |}.
Definition upd_chans (f : list (list iface) -> list (list iface)) (σ : World) : World :=
  {| w := w σ; chans := f (chans σ); proposed := proposed σ; stopping := stopping σ;
     store_st := store_st σ; idgen_st := idgen_st σ; term := term σ;
     committedIndex := committedIndex σ; now := now σ; ctx_done := ctx_done σ;
     sched := sched σ; pick := pick σ; stdout := stdout σ |}.
Definition upd_proposed (f : list (list Byte.byte) -> list (list Byte.byte)) (σ : World) : World :=
  {| w := w σ; chans := chans σ; proposed := f (proposed σ); stopping := stopping σ;
     store_st := store_st σ; idgen_st := idgen_st σ; term := term σ;
     committedIndex := committedIndex σ; now := now σ; ctx_done := ctx_done σ;
     sched := sched σ; pick := pick σ; stdout := stdout σ |}.
Definition upd_stopping (f : bool -> bool) (σ : World) : World :=
  {| w := w σ; chans := chans σ; proposed := proposed σ; stopping := f (stopping σ);
     store_st := store_st σ; idgen_st := idgen_st σ; term := term σ;
     committedIndex := committedIndex σ; now := now σ; ctx_done := ctx_done σ;
     sched := sched σ; pick := pick σ; stdout := stdout σ |}.
Definition upd_store_st (f : Store -> Store) (σ : World) : World :=
  {| w := w σ; chans := chans σ; proposed := proposed σ; stopping := stopping σ;
     store_st := f (store_st σ); idgen_st := idgen_st σ; term := term σ;
     committedIndex := committedIndex σ; now := now σ; ctx_done := ctx_done σ;
     sched := sched σ; pick := pick σ; stdout := stdout σ |}.
Definition upd_idgen_st (f : IDGen -> IDGen) (σ : World) : World :=
  {| w := w σ; chans := chans σ; proposed := proposed σ; stopping := stopping σ;
     store_st := store_st σ; idgen_st := f (idgen_st σ); term := term σ;
     committedIndex := committedIndex σ; now := now σ; ctx_done := ctx_done σ;
     sched := sched σ; pick := pick σ; stdout := stdout σ |}.
Definition upd_term (f : N -> N) (σ : World) : World :=
  {| w := w σ; chans := chans σ; proposed := proposed σ; stopping := stopping σ;
     store_st := store_st σ; idgen_st := idgen_st σ; term := f (term σ);
     committedIndex := committedIndex σ; now := now σ; ctx_done := ctx_done σ;
     sched := sched σ; pick := pick σ; stdout := stdout σ |}.
Definition upd_committedIndex (f : N -> N) (σ : World) : World :=
  {| w := w σ; chans := chans σ; proposed := proposed σ; stopping := stopping σ;
     store_st := store_st σ; idgen_st := idgen_st σ; term := term σ;
     committedIndex := f (committedIndex σ); now := now σ; ctx_done := ctx_done σ;
     sched := sched σ; pick := pick σ; stdout := stdout σ |}.
Definition upd_now (f : N -> N) (σ : World) : World :=
  {| w := w σ; chans := chans σ; proposed := proposed σ; stopping := stopping σ;
     store_st := store_st σ; idgen_st := idgen_st σ; term := term σ;
     committedIndex := committedIndex σ; now := f (now σ); ctx_done := ctx_done σ;
     sched := sched σ; pick := pick σ; stdout := stdout σ |}.
Definition upd_ctx_done (f : gmap nat ctx_error -> gmap nat ctx_error) (σ : World) : World :=
  {| w := w σ; chans := chans σ; proposed := proposed σ; stopping := stopping σ;
     store_st := store_st σ; idgen_st := idgen_st σ; term := term σ;
     committedIndex := committedIndex σ; now := now σ; ctx_done := f (ctx_done σ);
     sched := sched σ; pick := pick σ; stdout := stdout σ |}.
Definition upd_sched (f : list env_action -> list env_action) (σ : World) : World :=
  {| w := w σ; chans := chans σ; proposed := proposed σ; stopping := stopping σ;
     store_st := store_st σ; idgen_st := idgen_st σ; term := term σ;
     committedIndex := committedIndex σ; now := now σ; ctx_done := ctx_done σ;
     sched := f (sched σ); pick := pick σ; stdout := stdout σ |}.
Definition upd_pick (f : nat -> nat) (σ : World) : World :=
  {| w := w σ; chans := chans σ; proposed := proposed σ; stopping := stopping σ;
     store_st := store_st σ; idgen_st := idgen_st σ; term := term σ;
     committedIndex := committedIndex σ; now := now σ; ctx_done := ctx_done σ;
     sched := sched σ; pick := f (pick σ); stdout := stdout σ |}.
Definition upd_stdout (f : list string -> list string) (σ : World) : World :=
  {| w := w σ; chans := chans σ; proposed := proposed σ; stopping := stopping σ;
     store_st := store_st σ; idgen_st := idgen_st σ; term := term σ;
     committedIndex := committedIndex σ; now := now σ; ctx_done := ctx_done σ;
     sched := sched σ; pick := pick σ; stdout := f (stdout σ) |}.

(** The [v2store.Store] and [ApplierV2] interfaces, as far as they are
    called here. *)
Record v2store_Store : Type := {
  store_Get : string -> bool -> bool -> Store ->
              (option v2store_Event * option error) * Store;
  store_Watch : string -> bool -> bool -> N -> Store ->
                (option v2store_Watcher * option error) * Store
}.

Record ApplierV2 : Type := {
  applier_Post : RequestV2 -> Store -> Response * Store;
  applier_Put : RequestV2 -> ShouldApplyV3 -> Store -> Response * Store;
  applier_Delete : RequestV2 -> Store -> Response * Store;
  applier_QGet : RequestV2 -> Store -> Response * Store
}.

(** The fields of [EtcdServer] that hold interface values. *)
Record EtcdServer : Type := {
  v2store : v2store_Store;
  applyV2 : ApplierV2
}.

(** [Marshal] of [pb.Request], [idutil.Generator.Next] and
    [EtcdServer.parseProposeCtxErr] (which reads the clock and the state of
    the server). *)
Variable Marshal : RequestV2 -> list Byte.byte * option error.
Variable idutil_Next : IDGen -> N * IDGen.
Variable parseProposeCtxErr : World -> option ctx_error -> N -> error.

Definition on_store {A} (f : Store -> A * Store) : M World A :=
  fun σ => let '(a, st) := f (store_st σ) in (Ret a, upd_store_st (fun _ => st) σ).

(** ** The Pending-Call Table *)

(** Modelled from the spec: [wait.Wait] (package pkg/wait), the type of
    [s.w], is not among the sources. [register(id)] creates and stores a new
    slot for [id] and fails if [id] is already registered. *)
Definition Register (id : N) : M World nat :=
  fun σ =>
    match w σ !! id with
    | Some _ => (Panic "dup id", σ)
    | None =>
        let ch := length (chans σ) in
        (Ret ch, upd_chans (fun c => (c ++ [[]])%list) (upd_w (fun t => <[id := ch]> t) σ))
    end.

(** Modelled from the spec: [wait.Wait] is not among the sources.
    [trigger(id, result)] delivers [result] into the slot for [id] if one
    exists and removes it; for an [id] without a slot it does nothing. *)
Definition Trigger (id : N) (x : iface) : M World unit :=
  fun σ =>
    match w σ !! id with
    | Some ch =>
        (Ret tt, upd_chans (fun c => alter (fun buf => (buf ++ [x])%list) ch c)
                           (upd_w (fun t => delete id t) σ))
    | None => (Ret tt, σ)
    end.

(** ** The other goroutines *)

Definition env_step (a : env_action) (σ : World) : World :=
  match a with
  | EnvTrigger id x => snd (Trigger id x σ)
  | EnvCancel ctx e =>
      match ctx_done σ !! ctx with
      | Some _ => σ
      | None => upd_ctx_done (fun d => <[ctx := e]> d) σ
      end
  | EnvStop => upd_stopping (fun _ => true) σ
  | EnvTick dt => upd_now (fun t => (t + dt)%N) σ
  | EnvRaft t c => upd_committedIndex (fun _ => c) (upd_term (fun _ => t) σ)
  end.

Definition env_run (l : list env_action) (σ : World) : World :=
  foldl (fun σ a => env_step a σ) σ l.

(** ** select *)

Inductive select_case : Type :=
| RecvCh (x : iface)
| RecvDone
| RecvStopping.

(** The cases of the [select] of [processRaftRequest] that can proceed. *)
Definition ready_cases (ctx : Context) (ch : nat) (σ : World) : list select_case :=
  (match chans σ !! ch with
   | Some (x :: _) => [RecvCh x]
   | _ => []
   end ++
   (if ctx_done σ !! ctx is Some _ then [RecvDone] else []) ++
   (if stopping σ then [RecvStopping] else []))%list.

(** The caller is suspended: the other goroutines run, then one of the
    ready cases, if any, is taken (a value received from the slot leaves
    its channel). *)
Definition select (ctx : Context) (ch : nat) : M World select_case :=
  fun σ =>
    let σ1 := env_run (sched σ) (upd_sched (fun _ => []) σ) in
    let rs := ready_cases ctx ch σ1 in
    match rs !! (pick σ1 `mod` length rs)%nat with
    | Some (RecvCh x) => (Ret (RecvCh x), upd_chans (fun c => alter (drop 1) ch c) σ1)
    | Some c => (Ret c, σ1)
    | None => (Blocked, σ1)
    end.

(** ** Handlers *)

Class RequestV2Handler (H : Type) : Type := {
  Post : H -> Context -> RequestV2 -> M World (Response * option error);
  Put : H -> Context -> RequestV2 -> M World (Response * option error);
  Delete : H -> Context -> RequestV2 -> M World (Response * option error);
  QGet : H -> Context -> RequestV2 -> M World (Response * option error);
  Get : H -> Context -> RequestV2 -> M World (Response * option error);
  Head : H -> Context -> RequestV2 -> M World (Response * option error)
}.

Record reqV2HandlerStore : Type := {
  store : v2store_Store;
  applier : ApplierV2
}.

Record reqV2HandlerEtcdServer : Type := {
  embedded : reqV2HandlerStore;
  s : EtcdServer
}.

Definition NewStoreRequestV2Handler (st : v2store_Store) (ap : ApplierV2) : reqV2HandlerStore :=
  {| store := st; applier := ap |}.

Definition reqV2HandlerStore_Post (a : reqV2HandlerStore) (ctx : Context) (r : RequestV2)
  : M World (Response * option error) :=
  let! resp := on_store (applier_Post (applier a) r) in ret (resp, None).

Definition reqV2HandlerStore_Put (a : reqV2HandlerStore) (ctx : Context) (r : RequestV2)
  : M World (Response * option error) :=
  let! resp := on_store (applier_Put (applier a) r ApplyBoth) in ret (resp, None).

Definition reqV2HandlerStore_Delete (a : reqV2HandlerStore) (ctx : Context) (r : RequestV2)
  : M World (Response * option error) :=
  let! resp := on_store (applier_Delete (applier a) r) in ret (resp, None).

Definition reqV2HandlerStore_QGet (a : reqV2HandlerStore) (ctx : Context) (r : RequestV2)
  : M World (Response * option error) :=
  let! resp := on_store (applier_QGet (applier a) r) in ret (resp, None).

Definition reqV2HandlerStore_Get (a : reqV2HandlerStore) (ctx : Context) (r : RequestV2)
  : M World (Response * option error) :=
  if Wait r then
    let! '(wc, err) := on_store (store_Watch (store a) (Path r) (Recursive r) (Stream r) (Since r)) in
    ret ({| Term := 0; Index := 0; Event := None; Watcher := wc; Err := None |}, err)
  else
    let! '(ev, err) := on_store (store_Get (store a) (Path r) (Recursive r) (Sorted r)) in
    ret ({| Term := 0; Index := 0; Event := ev; Watcher := None; Err := None |}, err).

Definition reqV2HandlerStore_Head (a : reqV2HandlerStore) (ctx : Context) (r : RequestV2)
  : M World (Response * option error) :=
  let! '(ev, err) := on_store (store_Get (store a) (Path r) (Recursive r) (Sorted r)) in
  ret ({| Term := 0; Index := 0; Event := ev; Watcher := None; Err := None |}, err).

#[export] Instance reqV2HandlerStore_handler : RequestV2Handler reqV2HandlerStore := {|
  Post := reqV2HandlerStore_Post;
  Put := reqV2HandlerStore_Put;
  Delete := reqV2HandlerStore_Delete;
  QGet := reqV2HandlerStore_QGet;
  Get := reqV2HandlerStore_Get;
  Head := reqV2HandlerStore_Head
|}.

Definition Propose (ctx : Context) (data : list Byte.byte) : M World unit :=
  modify (upd_proposed (fun p => (p ++ [data])%list)).

Definition Println (line : string) : M World unit :=
  modify (upd_stdout (fun o => (o ++ [line])%list)).

Definition processRaftRequest (a : reqV2HandlerEtcdServer) (ctx : Context) (r : RequestV2)
  : M World (Response * option error) :=
  let '(data, err) := Marshal r in
  match err with
  | Some e => ret (Response_zero, Some e)
  | None =>
      let! ch := Register (ID r) in
      let! σ0 := get in
      let start := now σ0 in
      let! _ := Propose ctx data in
      let! c := select ctx ch in
      match c with
      | RecvCh x =>
          match x with
          | IResponse resp => ret (resp, Err resp)
          | INil => panic "interface conversion: interface {} is nil, not etcdserver.Response"
          | IOther t =>
              panic ("interface conversion: interface {} is " +:+ t +:+ ", not etcdserver.Response")
          end
      | RecvDone =>
          let! _ := Trigger (ID r) INil in
          let! σ := get in
          ret (Response_zero, Some (parseProposeCtxErr σ (ctx_done σ !! ctx) start))
      | RecvStopping =>
          let! _ := Println "<-a.s.stopping {}" in
          ret (Response_zero, Some ErrStopped)
      end
  end.

#[export] Instance reqV2HandlerEtcdServer_handler : RequestV2Handler reqV2HandlerEtcdServer := {|
  Post := processRaftRequest;
  Put := processRaftRequest;
  Delete := processRaftRequest;
  QGet := processRaftRequest;
  Get := fun a => reqV2HandlerStore_Get (embedded a);
  Head := fun a => reqV2HandlerStore_Head (embedded a)
|}.

(** [Handle] works through the pointer [r]: next to its results it yields
    the request as the call leaves it. *)
Definition Handle {H} `{RequestV2Handler H} (r : RequestV2) (ctx : Context) (v2api : H)
  : M World (RequestV2 * (Response * option error)) :=
  let r := if String.eqb (Method r) "GET" && Quorum r then set_Method "QGET" r else r in
  let! res :=
    (if String.eqb (Method r) "POST" then Post v2api ctx r
     else if String.eqb (Method r) "PUT" then Put v2api ctx r
     else if String.eqb (Method r) "DELETE" then Delete v2api ctx r
     else if String.eqb (Method r) "QGET" then QGet v2api ctx r
     else if String.eqb (Method r) "GET" then Get v2api ctx r
     else if String.eqb (Method r) "HEAD" then Head v2api ctx r
     else ret (Response_zero, Some ErrUnknownMethod)) in
  ret (r, res).

Definition reqIDGen_Next : M World N :=
  fun σ => let '(id, g) := idutil_Next (idgen_st σ) in (Ret id, upd_idgen_st (fun _ => g) σ).

Definition set_Term_Index (t i : N) (resp : Response) : Response :=
  {| Term := t; Index := i; Event := Event resp; Watcher := Watcher resp; Err := Err resp |}.

Definition Do (srv : EtcdServer) (ctx : Context) (r : RequestV2)
  : M World (Response * option error) :=
  let! id := reqIDGen_Next in
  let r := set_ID id r in
  let h := {| embedded := {| store := v2store srv; applier := applyV2 srv |}; s := srv |} in
  let! '(_, (resp, err)) := Handle r ctx h in
  let! σ := get in
  ret (set_Term_Index (term σ) (committedIndex σ) resp, err).

(** The state in which the caller of [processRaftRequest] suspends (the
    slot is registered and the data proposed), and its wake-up: the case of
    the [select] that is taken and the state at that moment. *)
Definition suspended (ctx : Context) (r : RequestV2) (data : list Byte.byte) (σ : World) : World :=
  snd (Propose ctx data (snd (Register (ID r) σ))).

Definition wake (ctx : Context) (r : RequestV2) (data : list Byte.byte) (σ : World)
  : outcome select_case * World :=
  select ctx (length (chans σ)) (suspended ctx r data σ).

(** The state that the [select] looks at when the caller wakes up. *)
Definition at_wake (ctx : Context) (r : RequestV2) (data : list Byte.byte) (σ : World) : World :=
  env_run (sched (suspended ctx r data σ)) (upd_sched (fun _ => []) (suspended ctx r data σ)).

End server.

Arguments w {Store IDGen} _.
Arguments chans {Store IDGen} _.
Arguments proposed {Store IDGen} _.
Arguments stopping {Store IDGen} _.
Arguments store_st {Store IDGen} _.
Arguments idgen_st {Store IDGen} _.
Arguments term {Store IDGen} _.
Arguments committedIndex {Store IDGen} _.
Arguments now {Store IDGen} _.
Arguments ctx_done {Store IDGen} _.
Arguments sched {Store IDGen} _.
Arguments pick {Store IDGen} _.
Arguments stdout {Store IDGen} _.

(** ** Notions used to state the properties *)

(** Every slot of the table is a channel that exists. *)
Definition table_wf {Store IDGen} (σ : World Store IDGen) : Prop :=
  forall id ch, w σ !! id = Some ch -> (ch < length (chans σ))%nat.

(** The state of the slot of request [id], whose channel is [ch], while the
    caller waits: either the slot is in the table, nothing was delivered and
    no other id leads to the channel; or the slot has left the table and no
    id leads to the channel any more. *)
Definition slot_pending {Store IDGen} (id : N) (ch : nat) (σ : World Store IDGen) : Prop :=
  w σ !! id = Some ch /\ chans σ !! ch = Some [] /\
  forall id', id' <> id -> w σ !! id' <> Some ch.

Definition slot_retired {Store IDGen} (id : N) (ch : nat) (σ : World Store IDGen) : Prop :=
  w σ !! id = None /\ forall id', w σ !! id' <> Some ch.

(** ** A sample server *)

Definition sample_store : v2store_Store unit :=
  {| store_Get := fun _ _ _ st => ((Some (EventRef 1), None), st);
     store_Watch := fun _ _ _ _ st => ((Some (WatcherRef 1), None), st) |}.

Definition sample_applier : ApplierV2 unit :=
  {| applier_Post := fun _ st => (Response_zero, st);
     applier_Put := fun _ _ st => (Response_zero, st);
     applier_Delete := fun _ st => (Response_zero, st);
     applier_QGet := fun _ st => (Response_zero, st) |}.

Definition sample_server : EtcdServer unit :=
  {| v2store := sample_store; applyV2 := sample_applier |}.

Definition sample_handler : reqV2HandlerEtcdServer unit :=
  {| embedded := {| store := sample_store; applier := sample_applier |}; s := sample_server |}.

Definition sample_Marshal (r : RequestV2) : list Byte.byte * option error :=
  (String.list_byte_of_string (Method r +:+ " " +:+ Path r +:+ " " +:+ pretty (ID r)), None).

Definition sample_Next (g : N) : N * N := ((g + 1)%N, (g + 1)%N).

Definition sample_parseProposeCtxErr (σ : World unit N) (e : option ctx_error) (start : N) : error :=
  match e with
  | Some Canceled => ErrOther "etcdserver: request cancelled"
  | _ => ErrOther "etcdserver: request timed out"
  end.

Definition sample_request (m : string) (quorum : bool) : RequestV2 :=
  {| ID := 0; Method := m; Path := "/foo"; Val := "bar"; Wait := false; Since := 0;
     Recursive := false; Sorted := false; Quorum := quorum; Stream := false |}.

(** An idle server at term 3 with commit index 40, and what the other
    goroutines will do at the next suspension. *)
Definition sample_state (env : list env_action) : World unit N :=
  {| w := ∅; chans := []; proposed := []; stopping := false; store_st := tt; idgen_st := 6%N;
     term := 3; committedIndex := 40; now := 1000; ctx_done := ∅; sched := env; pick := 0;
     stdout := [] |}.

Definition sample_response : Response :=
  {| Term := 0; Index := 0; Event := Some (EventRef 9); Watcher := None; Err := None |}.

(** A PUT whose id is 7, as [Do] would have numbered it. *)
Definition sample_put : RequestV2 := set_ID 7 (sample_request "PUT" false).

(** The sample instances of the handlers and of [Do]. *)
Definition sample_processRaftRequest :=
  processRaftRequest unit N sample_Marshal sample_parseProposeCtxErr sample_handler.

Definition sample_Handle :=
  @Handle unit N (reqV2HandlerEtcdServer unit)
    (reqV2HandlerEtcdServer_handler unit N sample_Marshal sample_parseProposeCtxErr).

Definition sample_Do :=
  Do unit N sample_Marshal sample_Next sample_parseProposeCtxErr sample_server.

End etcdserver.

(** * Package v3rpc: errors handed to gRPC *)

Module v3rpc.

(** The gRPC status codes ([codes.Code]). *)
Inductive Code : Type :=
| codes_OK
| codes_Canceled
| codes_Unknown
| codes_InvalidArgument
| codes_DeadlineExceeded
| codes_NotFound
| codes_AlreadyExists
| codes_PermissionDenied
| codes_ResourceExhausted
| codes_FailedPrecondition
| codes_Aborted
| codes_OutOfRange
| codes_Unimplemented
| codes_Internal
| codes_Unavailable
| codes_DataLoss
| codes_Unauthenticated.

(** The error values of the server packages and of package context that
    are keys of [toGRPCErrorMap], by package and name. *)
Inductive sentinel : Type :=
| membership_ErrIDRemoved
| membership_ErrIDNotFound
| membership_ErrIDExists
| membership_ErrPeerURLexists
| membership_ErrMemberNotLearner
| membership_ErrTooManyLearners
| etcdserver_ErrNotEnoughStartedMembers
| etcdserver_ErrLearnerNotReady
| mvcc_ErrCompacted
| mvcc_ErrFutureRev
| etcdserver_ErrRequestTooLarge
| etcdserver_ErrNoSpace
| etcdserver_ErrTooManyRequests
| etcdserver_ErrNoLeader
| etcdserver_ErrNotLeader
| etcdserver_ErrLeaderChanged
| etcdserver_ErrStopped
| etcdserver_ErrTimeout
| etcdserver_ErrTimeoutDueToLeaderFail
| etcdserver_ErrTimeoutDueToConnectionLost
| etcdserver_ErrUnhealthy
| etcdserver_ErrKeyNotFound
| etcdserver_ErrCorrupt
| etcdserver_ErrBadLeaderTransferee
| etcdserver_ErrClusterVersionUnavailable
| etcdserver_ErrWrongDowngradeVersionFormat
| etcdserver_ErrInvalidDowngradeTargetVersion
| etcdserver_ErrDowngradeInProcess
| etcdserver_ErrNoInflightDowngrade
| lease_ErrLeaseNotFound
| lease_ErrLeaseExists
| lease_ErrLeaseTTLTooLarge
| auth_ErrRootUserNotExist
| auth_ErrRootRoleNotExist
| auth_ErrUserAlreadyExist
| auth_ErrUserEmpty
| auth_ErrUserNotFound
| auth_ErrRoleAlreadyExist
| auth_ErrRoleNotFound
| auth_ErrRoleEmpty
| auth_ErrAuthFailed
| auth_ErrPermissionNotGiven
| auth_ErrPermissionDenied
| auth_ErrRoleNotGranted
| auth_ErrPermissionNotGranted
| auth_ErrAuthNotEnabled
| auth_ErrInvalidAuthToken
| auth_ErrInvalidAuthMgmt
| auth_ErrAuthOldRevision
| context_Canceled
| context_DeadlineExceeded.

(** The error values of package rpctypes that the table holds. *)
Inductive rpctypes_error : Type :=
| rpctypes_ErrGRPCMemberNotFound
| rpctypes_ErrGRPCMemberExist
| rpctypes_ErrGRPCPeerURLExist
| rpctypes_ErrGRPCMemberNotLearner
| rpctypes_ErrGRPCTooManyLearners
| rpctypes_ErrMemberNotEnoughStarted
| rpctypes_ErrGRPCLearnerNotReady
| rpctypes_ErrGRPCCompacted
| rpctypes_ErrGRPCFutureRev
| rpctypes_ErrGRPCRequestTooLarge
| rpctypes_ErrGRPCNoSpace
| rpctypes_ErrTooManyRequests
| rpctypes_ErrGRPCNoLeader
| rpctypes_ErrGRPCNotLeader
| rpctypes_ErrGRPCLeaderChanged
| rpctypes_ErrGRPCStopped
| rpctypes_ErrGRPCTimeout
| rpctypes_ErrGRPCTimeoutDueToLeaderFail
| rpctypes_ErrGRPCTimeoutDueToConnectionLost
| rpctypes_ErrGRPCUnhealthy
| rpctypes_ErrGRPCKeyNotFound
| rpctypes_ErrGRPCCorrupt
| rpctypes_ErrGRPCBadLeaderTransferee
| rpctypes_ErrGRPCClusterVersionUnavailable
| rpctypes_ErrGRPCWrongDowngradeVersionFormat
| rpctypes_ErrGRPCInvalidDowngradeTargetVersion
| rpctypes_ErrGRPCDowngradeInProcess
| rpctypes_ErrGRPCNoInflightDowngrade
| rpctypes_ErrGRPCLeaseNotFound
| rpctypes_ErrGRPCLeaseExist
| rpctypes_ErrGRPCLeaseTTLTooLarge
| rpctypes_ErrGRPCRootUserNotExist
| rpctypes_ErrGRPCRootRoleNotExist
| rpctypes_ErrGRPCUserAlreadyExist
| rpctypes_ErrGRPCUserEmpty
| rpctypes_ErrGRPCUserNotFound
| rpctypes_ErrGRPCRoleAlreadyExist
| rpctypes_ErrGRPCRoleNotFound
| rpctypes_ErrGRPCRoleEmpty
| rpctypes_ErrGRPCAuthFailed
| rpctypes_ErrGRPCPermissionNotGiven
| rpctypes_ErrGRPCPermissionDenied
| rpctypes_ErrGRPCRoleNotGranted
| rpctypes_ErrGRPCPermissionNotGranted
| rpctypes_ErrGRPCAuthNotEnabled
| rpctypes_ErrGRPCInvalidAuthToken
| rpctypes_ErrGRPCInvalidAuthMgmt
| rpctypes_ErrGRPCAuthOldRevision
| rpctypes_ErrGRPCCanceled
| rpctypes_ErrGRPCDeadlineExceeded.

(** A Go [error] that is not nil: one of the values above, an error that
    carries a gRPC status as [status.Error] makes them, or any other error,
    known by its message. The last case is an error whose dynamic type
    cannot be hashed (a slice, a map, or a struct that holds one), known by
    the name of its type as well; it carries no status. *)
Inductive error : Type :=
| Sentinel (e : sentinel)
| Rpc (e : rpctypes_error)
| StatusError (c : Code) (msg : string)
| OtherError (msg : string)
| Unhashable (type_name msg : string).

#[export] Instance Code_eq_dec : EqDecision Code.
Proof. solve_decision. Defined.
#[export] Instance sentinel_eq_dec : EqDecision sentinel.
Proof. solve_decision. Defined.
#[export] Instance rpctypes_error_eq_dec : EqDecision rpctypes_error.
Proof. solve_decision. Defined.
#[export] Instance error_eq_dec : EqDecision error.
Proof. solve_decision. Defined.

Definition toGRPCErrorMap : list (error * error) :=
  [ (Sentinel membership_ErrIDRemoved, Rpc rpctypes_ErrGRPCMemberNotFound);
    (Sentinel membership_ErrIDNotFound, Rpc rpctypes_ErrGRPCMemberNotFound);
    (Sentinel membership_ErrIDExists, Rpc rpctypes_ErrGRPCMemberExist);
    (Sentinel membership_ErrPeerURLexists, Rpc rpctypes_ErrGRPCPeerURLExist);
    (Sentinel membership_ErrMemberNotLearner, Rpc rpctypes_ErrGRPCMemberNotLearner);
    (Sentinel membership_ErrTooManyLearners, Rpc rpctypes_ErrGRPCTooManyLearners);
    (Sentinel etcdserver_ErrNotEnoughStartedMembers, Rpc rpctypes_ErrMemberNotEnoughStarted);
    (Sentinel etcdserver_ErrLearnerNotReady, Rpc rpctypes_ErrGRPCLearnerNotReady);
    (Sentinel mvcc_ErrCompacted, Rpc rpctypes_ErrGRPCCompacted);
    (Sentinel mvcc_ErrFutureRev, Rpc rpctypes_ErrGRPCFutureRev);
    (Sentinel etcdserver_ErrRequestTooLarge, Rpc rpctypes_ErrGRPCRequestTooLarge);
    (Sentinel etcdserver_ErrNoSpace, Rpc rpctypes_ErrGRPCNoSpace);
    (Sentinel etcdserver_ErrTooManyRequests, Rpc rpctypes_ErrTooManyRequests);
    (Sentinel etcdserver_ErrNoLeader, Rpc rpctypes_ErrGRPCNoLeader);
    (Sentinel etcdserver_ErrNotLeader, Rpc rpctypes_ErrGRPCNotLeader);
    (Sentinel etcdserver_ErrLeaderChanged, Rpc rpctypes_ErrGRPCLeaderChanged);
    (Sentinel etcdserver_ErrStopped, Rpc rpctypes_ErrGRPCStopped);
    (Sentinel etcdserver_ErrTimeout, Rpc rpctypes_ErrGRPCTimeout);
    (Sentinel etcdserver_ErrTimeoutDueToLeaderFail, Rpc rpctypes_ErrGRPCTimeoutDueToLeaderFail);
    (Sentinel etcdserver_ErrTimeoutDueToConnectionLost, Rpc rpctypes_ErrGRPCTimeoutDueToConnectionLost);
    (Sentinel etcdserver_ErrUnhealthy, Rpc rpctypes_ErrGRPCUnhealthy);
    (Sentinel etcdserver_ErrKeyNotFound, Rpc rpctypes_ErrGRPCKeyNotFound);
    (Sentinel etcdserver_ErrCorrupt, Rpc rpctypes_ErrGRPCCorrupt);
    (Sentinel etcdserver_ErrBadLeaderTransferee, Rpc rpctypes_ErrGRPCBadLeaderTransferee);
    (Sentinel etcdserver_ErrClusterVersionUnavailable, Rpc rpctypes_ErrGRPCClusterVersionUnavailable);
    (Sentinel etcdserver_ErrWrongDowngradeVersionFormat, Rpc rpctypes_ErrGRPCWrongDowngradeVersionFormat);
    (Sentinel etcdserver_ErrInvalidDowngradeTargetVersion, Rpc rpctypes_ErrGRPCInvalidDowngradeTargetVersion);
    (Sentinel etcdserver_ErrDowngradeInProcess, Rpc rpctypes_ErrGRPCDowngradeInProcess);
    (Sentinel etcdserver_ErrNoInflightDowngrade, Rpc rpctypes_ErrGRPCNoInflightDowngrade);
    (Sentinel lease_ErrLeaseNotFound, Rpc rpctypes_ErrGRPCLeaseNotFound);
    (Sentinel lease_ErrLeaseExists, Rpc rpctypes_ErrGRPCLeaseExist);
    (Sentinel lease_ErrLeaseTTLTooLarge, Rpc rpctypes_ErrGRPCLeaseTTLTooLarge);
    (Sentinel auth_ErrRootUserNotExist, Rpc rpctypes_ErrGRPCRootUserNotExist);
    (Sentinel auth_ErrRootRoleNotExist, Rpc rpctypes_ErrGRPCRootRoleNotExist);
    (Sentinel auth_ErrUserAlreadyExist, Rpc rpctypes_ErrGRPCUserAlreadyExist);
    (Sentinel auth_ErrUserEmpty, Rpc rpctypes_ErrGRPCUserEmpty);
    (Sentinel auth_ErrUserNotFound, Rpc rpctypes_ErrGRPCUserNotFound);
    (Sentinel auth_ErrRoleAlreadyExist, Rpc rpctypes_ErrGRPCRoleAlreadyExist);
    (Sentinel auth_ErrRoleNotFound, Rpc rpctypes_ErrGRPCRoleNotFound);
    (Sentinel auth_ErrRoleEmpty, Rpc rpctypes_ErrGRPCRoleEmpty);
    (Sentinel auth_ErrAuthFailed, Rpc rpctypes_ErrGRPCAuthFailed);
    (Sentinel auth_ErrPermissionNotGiven, Rpc rpctypes_ErrGRPCPermissionNotGiven);
    (Sentinel auth_ErrPermissionDenied, Rpc rpctypes_ErrGRPCPermissionDenied);
    (Sentinel auth_ErrRoleNotGranted, Rpc rpctypes_ErrGRPCRoleNotGranted);
    (Sentinel auth_ErrPermissionNotGranted, Rpc rpctypes_ErrGRPCPermissionNotGranted);
    (Sentinel auth_ErrAuthNotEnabled, Rpc rpctypes_ErrGRPCAuthNotEnabled);
    (Sentinel auth_ErrInvalidAuthToken, Rpc rpctypes_ErrGRPCInvalidAuthToken);
    (Sentinel auth_ErrInvalidAuthMgmt, Rpc rpctypes_ErrGRPCInvalidAuthMgmt);
    (Sentinel auth_ErrAuthOldRevision, Rpc rpctypes_ErrGRPCAuthOldRevision);
    (Sentinel context_Canceled, Rpc rpctypes_ErrGRPCCanceled);
    (Sentinel context_DeadlineExceeded, Rpc rpctypes_ErrGRPCDeadlineExceeded) ].

(** [strings.HasPrefix] and [strings.HasSuffix], on strings of bytes. *)
Definition HasPrefix (s prefix : string) : bool :=
  (String.length prefix <=? String.length s)%nat &&
  String.eqb (String.substring 0 (String.length prefix) s) prefix.

Definition HasSuffix (s suffix : string) : bool :=
  (String.length suffix <=? String.length s)%nat &&
  String.eqb (String.substring (String.length s - String.length suffix)
                (String.length suffix) s) suffix.

(** A map built by a composite literal, read at a key: a later entry for
    the key replaces an earlier one. *)
Fixpoint map_lookup (m : list (error * error)) (k : error) : option error :=
  match m with
  | [] => None
  | (k', v) :: m' =>
      match map_lookup m' k with
      | Some v' => Some v'
      | None => if bool_decide (k = k') then Some v else None
      end
  end.

(** The requests that [isRPCSupportedForLearner] tells apart. *)
Inductive request : Type :=
| StatusRequest
| RangeRequest (Serializable : bool)
| OtherRequest (type_name : string).

Section errors.

(** The method [Error] of the errors, and the status (code and message)
    that the values of package rpctypes carry. *)
Variable Error : error -> string.
Variable rpctypes_status : rpctypes_error -> Code * string.

(** Reading a Go map whose keys are interfaces hashes the key, and the
    runtime panics on a key whose dynamic type cannot be hashed. *)
Definition map_index (m : list (error * error)) (k : option error) : outcome (option error) :=
  match k with
  | None => Ret None
  | Some (Unhashable type_name _) =>
      Panic ("runtime error: hash of unhashable type " +:+ type_name)
  | Some e => Ret (map_lookup m e)
  end.

(** The error may be nil: it is then no key of the table, and the call of
    its method [Error] panics. *)
Definition togRPCError (err : option error) : outcome error :=
  match err with
  | Some e =>
      if bool_decide (e = Sentinel context_Canceled)
         || bool_decide (e = Sentinel context_DeadlineExceeded)
      then Ret e
      else
        match map_index toGRPCErrorMap err with
        | Ret (Some grpcErr) => Ret grpcErr
        | Ret None => Ret (StatusError codes_Unknown (Error e))
        | Panic v => Panic v
        | Exit c => Exit c
        | Blocked => Blocked
        end
  | None =>
      match map_index toGRPCErrorMap err with
      | Ret (Some grpcErr) => Ret grpcErr
      | Ret None => Panic "runtime error: invalid memory address or nil pointer dereference"
      | Panic v => Panic v
      | Exit c => Exit c
      | Blocked => Blocked
      end
  end.

(** [status.FromError], followed by [Code] and [Message]: a nil error has
    the status OK, an error that carries no status gives none. *)
Definition FromError (err : option error) : option (Code * string) :=
  match err with
  | None => Some (codes_OK, "")
  | Some (StatusError c msg) => Some (c, msg)
  | Some (Rpc e) => Some (rpctypes_status e)
  | Some (Sentinel _) | Some (OtherError _) | Some (Unhashable _ _) => None
  end.

Definition isClientCtxErr (ctxErr err : option error) : bool :=
  match ctxErr with
  | Some _ => true
  | None =>
      match FromError err with
      | None => false
      | Some (code, msg) =>
          match code with
          | codes_Canceled | codes_DeadlineExceeded => true
          | codes_Unavailable =>
              if String.eqb msg "client disconnected" then true
              else if HasPrefix msg "stream error: " && HasSuffix msg "; CANCEL" then true
              else false
          | _ => false
          end
      end
  end.

End errors.

Definition isRPCSupportedForLearner (req : request) : bool :=
  match req with
  | StatusRequest => true
  | RangeRequest serializable => serializable
  | OtherRequest _ => false
  end.

(** Whether a byte occurs in a string. *)
Fixpoint occurs (c : Ascii.ascii) (s : string) : bool :=
  match s with
  | EmptyString => false
  | String c' s' => Ascii.eqb c c' || occurs c s'
  end.

(** The two keys of the table that lead to the same value. *)
Definition member_gone (e : sentinel) : Prop :=
  e = membership_ErrIDRemoved \/ e = membership_ErrIDNotFound.

(** Samples of the two parameters. *)
Definition sample_Error (e : error) : string :=
  match e with
  | StatusError _ msg => "rpc error: " +:+ msg
  | OtherError msg => msg
  | _ => "etcdserver: error"
  end.

Definition sample_rpctypes_status (e : rpctypes_error) : Code * string :=
  (codes_FailedPrecondition, "etcdserver: error").

End v3rpc.

(** * Further notions for package verify *)

Module verify_more.
Import verify.

(** A computation adds to the trace only events that satisfy [P]. *)
Definition emits {A} (P : event -> Prop) (m : M trace A) : Prop :=
  forall tr, exists evs, snd (m tr) = (tr ++ evs)%list /\ Forall P evs.

Definition is_log (ev : event) : Prop :=
  match ev with
  | EvLog _ _ _ _ => True
  | _ => False
  end.

(** The reads of the write-ahead log. *)
Definition is_wal_read (ev : event) : Prop :=
  match ev with
  | EvValidSnapshotEntries _ | EvWalVerify _ _ => True
  | _ => False
  end.

(** What the checks between the opening and the closing of the backend
    may do: read the log and the consistent index, and log. *)
Definition is_check_event (ev : event) : Prop :=
  match ev with
  | EvBackendNew _ | EvBackendClose => False
  | _ => True
  end.

(** Anything but a log record above the Info level. *)
Definition is_quiet_event (ev : event) : Prop :=
  match ev with
  | EvLog _ ErrorLevel _ _ | EvLog _ FatalLevel _ _ => False
  | _ => True
  end.

(** The field that every record of [Verify] carries. *)
Definition data_dir_field (cfg : Config) : field := zap_String "data-dir" (DataDir cfg).

(** A data directory whose backend is ahead of nothing but whose snapshot
    is ahead of the backend. *)
Definition stale_backend_world : World :=
  sample_world [sample_snapshot 11] (sample_hardstate 2 12) (sample_backend 10 2).

End verify_more.

(** * Further notions for package etcdserver *)

Module etcdserver_more.
Import etcdserver.

(** An action of the other goroutines that cannot wake the caller who
    waits for request [id] under context [ctx]: it neither triggers [id],
    nor ends [ctx], nor stops the server. *)
Definition quiet_for (id : N) (ctx : Context) (a : env_action) : Prop :=
  match a with
  | EnvTrigger id' _ => id' <> id
  | EnvCancel c _ => c <> ctx
  | EnvStop => False
  | EnvTick _ | EnvRaft _ _ => True
  end.

(** The panic of the type assertion [x.(Response)] on a value that is not
    a Response. *)
Definition conversion_panic (x : iface) : string :=
  match x with
  | INil => "interface conversion: interface {} is nil, not etcdserver.Response"
  | IOther t => "interface conversion: interface {} is " +:+ t +:+ ", not etcdserver.Response"
  | IResponse _ => ""
  end.

(** The methods that go through consensus on the handler of the server. *)
Definition consensus_methods : list string := ["POST"; "PUT"; "DELETE"; "QGET"].

(** The kinds that [Handle] knows. *)
Definition known_methods : list string := ["POST"; "PUT"; "DELETE"; "QGET"; "GET"; "HEAD"].

(** A marshaller that rejects every request. *)
Definition failing_Marshal (r : RequestV2) : list Byte.byte * option error :=
  ([], Some (ErrOther "proto: required field not set")).

Definition sample_store_handler : reqV2HandlerStore unit :=
  NewStoreRequestV2Handler unit sample_store sample_applier.

(** The sample state with a given choice for the [select]. *)
Definition sample_state_picking (p : nat) (env : list env_action) : World unit N :=
  upd_pick unit N (fun _ => p) (sample_state env).

End etcdserver_more.

(** * Properties of package verify *)

Module verify_spec.
Import verify.

(** ** The outcome of a run does not depend on what was traced before *)

Lemma oblivious_ret {A} (a : A) : oblivious (ret a).
Proof. intros tr tr'. reflexivity. Qed.

Lemma oblivious_panic {A} (v : string) : oblivious (@panic trace A v).
Proof. intros tr tr'. reflexivity. Qed.

Lemma oblivious_bind {A B} (m : M trace A) (k : A -> M trace B) :
  oblivious m -> (forall a, oblivious (k a)) -> oblivious (bind m k).
Proof.
  intros Hm Hk tr tr'. unfold bind. specialize (Hm tr tr').
  destruct (m tr) as [o t], (m tr') as [o' t']. simpl in Hm. subst o'.
  destruct o; try reflexivity. apply Hk.
Qed.

Lemma oblivious_emit (ev : event) : oblivious (emit ev).
Proof. intros tr tr'. reflexivity. Qed.

Lemma oblivious_call {A} (ev : event) (r : fallible A) : oblivious (call ev r).
Proof. intros tr tr'. destruct r; reflexivity. Qed.

Lemma oblivious_deref {A} (p : option A) : oblivious (@deref trace A p).
Proof. destruct p; [apply oblivious_ret | apply oblivious_panic]. Qed.

Lemma oblivious_slice_index {A} (l : list A) (i : Z) : oblivious (@slice_index trace A l i).
Proof.
  unfold slice_index.
  destruct (if bool_decide (0 <= i)%Z then l !! Z.to_nat i else None); [apply oblivious_ret |].
  case_bool_decide; apply oblivious_panic.
Qed.

Lemma oblivious_zap_log lg lvl msg fields : oblivious (zap_log lg lvl msg fields).
Proof.
  destruct lg as [[|sink]|]; [apply oblivious_ret | apply oblivious_emit | apply oblivious_panic].
Qed.

Lemma oblivious_with_defer {A} (ev : event) (body : M trace A) :
  oblivious body -> oblivious (with_defer (emit ev) body).
Proof.
  intros Hb tr tr'. unfold with_defer. specialize (Hb tr tr').
  destruct (body tr) as [o t], (body tr') as [o' t']. simpl in Hb. subst o'.
  destruct o; reflexivity.
Qed.

Create HintDb obl discriminated.
#[export] Hint Resolve oblivious_ret oblivious_panic oblivious_emit oblivious_call
  oblivious_deref oblivious_slice_index oblivious_zap_log : obl.

Ltac obl_step :=
  match goal with
  | |- oblivious (bind _ _) => apply oblivious_bind; [| intros ?]
  | |- oblivious (match ?x with _ => _ end) => destruct x
  | |- oblivious (if ?b then _ else _) => destruct b
  | |- oblivious _ => solve [auto with obl]
  end.

Lemma oblivious_validateConsistentIndex cfg hardstate snapshot be :
  oblivious (validateConsistentIndex cfg hardstate snapshot be).
Proof. unfold validateConsistentIndex, zap_Info. repeat obl_step. Qed.

Lemma oblivious_validateWal w cfg : oblivious (validateWal w cfg).
Proof. unfold validateWal. repeat obl_step. Qed.

Lemma oblivious_Verify_checks w cfg be : oblivious (Verify_checks w cfg be).
Proof.
  unfold Verify_checks. apply oblivious_bind; [apply oblivious_validateWal |].
  intros [[s h] [e|]]; [apply oblivious_ret |].
  apply oblivious_bind; [apply oblivious_validateConsistentIndex | intros; apply oblivious_ret].
Qed.

(** ** The consistent-index validation *)

Lemma first_violated_None exact I T C HT S :
  first_violated (invariants_in_order exact I T C HT S) = None <->
  (S <= I <= C)%N /\ (T <= HT)%N /\ (exact = true -> I = C /\ T = HT).
Proof.
  unfold invariants_in_order. cbn [first_violated].
  destruct exact; cbn [implb];
    destruct (N.eqb_spec I C), (N.eqb_spec T HT), (N.leb_spec I C), (N.leb_spec T HT),
             (N.leb_spec S I);
    split; try discriminate; try (intros _; repeat split; intros; lia);
    intros (? & ? & ?); try lia;
    match goal with H : true = true -> _ |- _ => destruct (H eq_refl); congruence end.
Qed.

Lemma validateConsistentIndex_run cfg lg hs snap be tr :
  Logger cfg = Some lg ->
  fst (validateConsistentIndex cfg (Some hs) (Some snap) be tr) =
  Ret (first_violated (invariants_in_order (ExactIndex cfg) (consistent_index be)
         (consistent_term be) (HardState_Commit hs) (HardState_Term hs) (Snapshot_Index snap))).
Proof.
  intros Hlg. unfold validateConsistentIndex, invariants_in_order, zap_Info, zap_log.
  rewrite Hlg. cbn [first_violated].
  rewrite !N.leb_antisym.
  unfold bind, deref, ret, emit, modify.
  destruct (ExactIndex cfg); cbn [implb negb fst];
    destruct (consistent_index be =? HardState_Commit hs)%N;
    destruct (consistent_term be =? HardState_Term hs)%N;
    cbn [negb fst];
    destruct (HardState_Commit hs <? consistent_index be)%N;
    destruct (HardState_Term hs <? consistent_term be)%N;
    destruct (consistent_index be <? Snapshot_Index snap)%N;
    cbn [negb fst]; try reflexivity; destruct lg; reflexivity.
Qed.

(** C1 (amended): with a configured logger, the consistent-index validation
    returns the error of the first invariant that is violated, in the order
    exact index equality, exact term equality, index <= commit,
    term <= hardstate term, index >= snapshot index, each error carrying
    both observed values; it succeeds iff S <= I <= C and T <= HT and, in
    exact mode, I = C and T = HT. *)
Theorem validateConsistentIndex_first_violated cfg lg hs snap be tr :
  Logger cfg = Some lg ->
  let I := consistent_index be in
  let T := consistent_term be in
  let C := HardState_Commit hs in
  let HT := HardState_Term hs in
  let S := Snapshot_Index snap in
  let out := fst (validateConsistentIndex cfg (Some hs) (Some snap) be tr) in
  out = Ret (first_violated (invariants_in_order (ExactIndex cfg) I T C HT S)) /\
  (out = Ret None <->
   (S <= I <= C)%N /\ (T <= HT)%N /\ (ExactIndex cfg = true -> I = C /\ T = HT)).
Proof.
  intros Hlg I T C HT S out.
  assert (Hrun := validateConsistentIndex_run cfg lg hs snap be tr Hlg).
  fold I T C HT S out in Hrun. split; [exact Hrun |].
  rewrite Hrun. split.
  - intros [= Hnone]. apply first_violated_None, Hnone.
  - intros Hok. f_equal. apply first_violated_None, Hok.
Qed.

Lemma validateConsistentIndex_first_violated_witness :
  Logger (sample_config false) = Some (NewLogger "stderr") /\
  fst (validateConsistentIndex (sample_config false) (Some (sample_hardstate 2 10))
         (Some (sample_snapshot 5)) (sample_backend 10 2) []) = Ret None.
Proof.
  split; [reflexivity |].
  apply (validateConsistentIndex_first_violated (sample_config false) (NewLogger "stderr")
           (sample_hardstate 2 10) (sample_snapshot 5) (sample_backend 10 2) []).
  - reflexivity.
  - vm_compute. repeat split; discriminate.
Defined.

(** C1, as stated, fails: in non-exact mode with S <= I <= C the validation
    still fails when the backend term is above the hardstate term. *)
Lemma validateConsistentIndex_term_counterexample :
  let cfg := sample_config false in
  let hs := sample_hardstate 2 10 in
  let snap := sample_snapshot 0 in
  let be := sample_backend 5 3 in
  ((Snapshot_Index snap <= consistent_index be <= HardState_Commit hs)%N /\
   (ExactIndex cfg = true ->
    consistent_index be = HardState_Commit hs /\ consistent_term be = HardState_Term hs)) /\
  fst (validateConsistentIndex cfg (Some hs) (Some snap) be []) =
  Ret (Some "backend.Term (3)必须是<= WAL.HardState.term, (2)").
Proof.
  cbv zeta. split; [split; [vm_compute; split; discriminate | discriminate] |].
  vm_compute. reflexivity.
Qed.

(** Scenarios C, D and E of the specification. *)
Example scenario_C :
  fst (validateConsistentIndex (sample_config true) (Some (sample_hardstate 2 12))
         (Some (sample_snapshot 0)) (sample_backend 10 2) []) =
  Ret (Some "backend.ConsistentIndex (10) expected == WAL.HardState.commit (12)").
Proof. vm_compute. reflexivity. Qed.

Example scenario_D :
  fst (validateConsistentIndex (sample_config false) (Some (sample_hardstate 2 12))
         (Some (sample_snapshot 9)) (sample_backend 8 2) []) =
  Ret (Some "backend.ConsistentIndex (8)必须是>= last snapshot index (9)").
Proof. vm_compute. reflexivity. Qed.

Example scenario_E :
  fst (Verify (sample_world [sample_snapshot 5] (sample_hardstate 2 10) (sample_backend 10 2))
         (sample_config false) []) = Ret None.
Proof. vm_compute. reflexivity. Qed.

(** ** Neither step ends the process *)

Lemma no_exit_ret {A} (a : A) : no_exit (ret a).
Proof. intros tr. exact I. Qed.

Lemma no_exit_panic {A} (v : string) : no_exit (@panic trace A v).
Proof. intros tr. exact I. Qed.

Lemma no_exit_bind {A B} (m : M trace A) (k : A -> M trace B) :
  no_exit m -> (forall a, no_exit (k a)) -> no_exit (bind m k).
Proof.
  intros Hm Hk tr. unfold bind. specialize (Hm tr).
  destruct (m tr) as [[a|v|c|] t]; simpl in *; try tauto. apply Hk.
Qed.

Lemma no_exit_emit (ev : event) : no_exit (emit ev).
Proof. intros tr. exact I. Qed.

Lemma no_exit_call {A} (ev : event) (r : fallible A) : no_exit (call ev r).
Proof. intros tr. destruct r; exact I. Qed.

Lemma no_exit_deref {A} (p : option A) : no_exit (@deref trace A p).
Proof. destruct p; [apply no_exit_ret | apply no_exit_panic]. Qed.

Lemma no_exit_slice_index {A} (l : list A) (i : Z) : no_exit (@slice_index trace A l i).
Proof.
  unfold slice_index.
  destruct (if bool_decide (0 <= i)%Z then l !! Z.to_nat i else None); [apply no_exit_ret |].
  case_bool_decide; apply no_exit_panic.
Qed.

Lemma no_exit_zap_log lg lvl msg fields : no_exit (zap_log lg lvl msg fields).
Proof.
  destruct lg as [[|sink]|]; [apply no_exit_ret | apply no_exit_emit | apply no_exit_panic].
Qed.

Lemma no_exit_with_defer {A} (ev : event) (body : M trace A) :
  no_exit body -> no_exit (with_defer (emit ev) body).
Proof.
  intros Hb tr. unfold with_defer. specialize (Hb tr).
  destruct (body tr) as [[a|v|c|] t]; simpl in *; tauto.
Qed.

Create HintDb noexit discriminated.
#[export] Hint Resolve no_exit_ret no_exit_panic no_exit_emit no_exit_call
  no_exit_deref no_exit_slice_index no_exit_zap_log : noexit.

Ltac no_exit_step :=
  match goal with
  | |- no_exit (bind _ _) => apply no_exit_bind; [| intros ?]
  | |- no_exit (match ?x with _ => _ end) => destruct x
  | |- no_exit (if ?b then _ else _) => destruct b
  | |- no_exit _ => solve [auto with noexit]
  end.

Lemma no_exit_validateConsistentIndex cfg hardstate snapshot be :
  no_exit (validateConsistentIndex cfg hardstate snapshot be).
Proof. unfold validateConsistentIndex, zap_Info. repeat no_exit_step. Qed.

Lemma no_exit_validateWal w cfg : no_exit (validateWal w cfg).
Proof. unfold validateWal. repeat no_exit_step. Qed.

Lemma no_exit_Verify_checks w cfg be : no_exit (Verify_checks w cfg be).
Proof.
  unfold Verify_checks. apply no_exit_bind; [apply no_exit_validateWal |].
  intros [[s h] [e|]]; [apply no_exit_ret |].
  apply no_exit_bind; [apply no_exit_validateConsistentIndex | intros; apply no_exit_ret].
Qed.

(** ** Verify *)

Lemma Verify_opened w cfg be tr tr1 :
  backend_New w (Verify_beConfig w cfg) = Returns be ->
  fst (Verify w cfg tr) = Verify_result (fst (Verify_checks w cfg be tr1)).
Proof.
  intros Hbe. unfold Verify. fold (Verify_beConfig w cfg).
  destruct (zap_Info _ _ _ tr) as [o0 tr0].
  unfold bind at 1. unfold call. rewrite Hbe. unfold with_defer.
  rewrite (oblivious_Verify_checks w cfg be tr1 (tr0 ++ [EvBackendNew (Verify_beConfig w cfg)])%list).
  destruct (Verify_checks w cfg be (tr0 ++ [EvBackendNew (Verify_beConfig w cfg)])%list)
    as [[[[e|] r]|v|c|] t]; cbn [fst emit modify Verify_result];
    repeat match goal with |- context [let '(_, _) := ?x in _] => destruct x end; reflexivity.
Qed.

Lemma Verify_not_opened w cfg v tr :
  backend_New w (Verify_beConfig w cfg) = Panics v ->
  fst (Verify w cfg tr) = Panic v.
Proof.
  intros Hbe. unfold Verify. fold (Verify_beConfig w cfg).
  destruct (zap_Info _ _ _ tr) as [o0 tr0].
  unfold bind at 1. unfold call. rewrite Hbe.
  repeat match goal with |- context [let '(_, _) := ?x in _] => destruct x end; reflexivity.
Qed.

Lemma Verify_returns_or_panics w cfg tr : returns_or_panics (fst (Verify w cfg tr)).
Proof.
  destruct (backend_New w (Verify_beConfig w cfg)) as [be|v] eqn:Hbe.
  - rewrite (Verify_opened w cfg be tr tr Hbe).
    assert (H := no_exit_Verify_checks w cfg be tr).
    destruct (fst (Verify_checks w cfg be tr)) as [[e r]|?|?|]; simpl in *; tauto.
  - rewrite (Verify_not_opened w cfg v tr Hbe). exact I.
Qed.

Lemma Verify_checks_wal_error w cfg be s h e tr tr1 :
  fst (validateWal w cfg tr1) = Ret (s, h, Some e) ->
  fst (Verify_checks w cfg be tr) = Ret (Some e, Some e).
Proof.
  intros Hwal. unfold Verify_checks, bind.
  rewrite (oblivious_validateWal w cfg tr1 tr) in Hwal.
  destruct (validateWal w cfg tr) as [o t]. simpl in Hwal. subst o. reflexivity.
Qed.

Lemma Verify_checks_index w cfg be s h tr tr1 tr2 :
  fst (validateWal w cfg tr1) = Ret (s, h, None) ->
  fst (Verify_checks w cfg be tr) =
  match fst (validateConsistentIndex cfg h s be tr2) with
  | Ret r => Ret (None, r)
  | Panic v => Panic v
  | Exit c => Exit c
  | Blocked => Blocked
  end.
Proof.
  intros Hwal. unfold Verify_checks, bind.
  rewrite (oblivious_validateWal w cfg tr1 tr) in Hwal.
  destruct (validateWal w cfg tr) as [o t]. simpl in Hwal. subst o.
  rewrite (oblivious_validateConsistentIndex cfg h s be tr2 t).
  destruct (validateConsistentIndex cfg h s be t) as [[r|v|c|] t']; reflexivity.
Qed.

Lemma VerifyIfEnabled_returns_or_panics w cfg tr :
  returns_or_panics (fst (VerifyIfEnabled w cfg tr)).
Proof.
  unfold VerifyIfEnabled. destruct (String.eqb _ _); [apply Verify_returns_or_panics | exact I].
Qed.

(** ** The write-ahead log step *)

Lemma validateWal_unreadable w cfg snaps e tr :
  ValidSnapshotEntries w (Logger cfg) (ToWalDir w (DataDir cfg)) = Returns (snaps, Some e) ->
  fst (validateWal w cfg tr) = Ret (None, None, Some e).
Proof. intros H. unfold validateWal, bind, call. rewrite H. reflexivity. Qed.

Lemma validateWal_no_entries w cfg tr :
  ValidSnapshotEntries w (Logger cfg) (ToWalDir w (DataDir cfg)) = Returns ([], None) ->
  fst (validateWal w cfg tr) = Panic "runtime error: index out of range [-1]".
Proof. intros H. unfold validateWal, bind, call. rewrite H. reflexivity. Qed.

(** C6: on a write-ahead log from which no valid snapshot entry is read
    (the reader returns an empty list and no error) [validateWal] does not
    return an error: indexing the last element of the empty list panics,
    and so does [Verify]. *)
Theorem validateWal_empty_snapshot_list_panics :
  let w := sample_world [] (sample_hardstate 1 0) (sample_backend 0 0) in
  fst (validateWal w (sample_config false) []) =
    Panic "runtime error: index out of range [-1]" /\
  fst (Verify w (sample_config false) []) =
    Panic "runtime error: index out of range [-1]".
Proof. split; vm_compute; reflexivity. Qed.

(** C7, as stated, fails: when the backend cannot be opened the
    verification fails with a panic, which [Verify] logs and raises again;
    no error value is returned. *)
Lemma Verify_panic_counterexample :
  fst (Verify broken_backend_world (sample_config false) []) = Panic "failed to open database" /\
  ~ (exists r, fst (Verify broken_backend_world (sample_config false) []) = Ret r).
Proof.
  assert (H : fst (Verify broken_backend_world (sample_config false) [])
              = Panic "failed to open database") by (vm_compute; reflexivity).
  split; [exact H |]. intros [r Hr]. rewrite H in Hr. discriminate.
Qed.

(** C7 (amended): [Verify] never ends the process itself, it returns or
    panics. An error of the write-ahead log validation or of the
    consistent-index validation is returned as the error value; a panic
    raised while opening the backend or during the checks is raised again
    to the caller. The process is ended only by [MustVerifyIfEnabled],
    and only after [VerifyIfEnabled] returned a non-nil error. *)
Theorem Verify_returns_errors_and_never_exits w cfg tr :
  returns_or_panics (fst (Verify w cfg tr)) /\
  (forall be s h e tr1,
      backend_New w (Verify_beConfig w cfg) = Returns be ->
      fst (validateWal w cfg tr1) = Ret (s, h, Some e) ->
      fst (Verify w cfg tr) = Ret (Some e)) /\
  (forall be s h r tr1 tr2,
      backend_New w (Verify_beConfig w cfg) = Returns be ->
      fst (validateWal w cfg tr1) = Ret (s, h, None) ->
      fst (validateConsistentIndex cfg h s be tr2) = Ret r ->
      fst (Verify w cfg tr) = Ret r) /\
  (forall v,
      backend_New w (Verify_beConfig w cfg) = Panics v ->
      fst (Verify w cfg tr) = Panic v) /\
  (forall be v tr1,
      backend_New w (Verify_beConfig w cfg) = Returns be ->
      fst (Verify_checks w cfg be tr1) = Panic v ->
      fst (Verify w cfg tr) = Panic v) /\
  (forall c,
      fst (MustVerifyIfEnabled w cfg tr) = Exit c ->
      exists e, fst (VerifyIfEnabled w cfg tr) = Ret (Some e)).
Proof.
  split; [apply Verify_returns_or_panics |].
  split; [| split; [| split; [| split]]].
  - intros be s h e tr1 Hbe Hwal.
    rewrite (Verify_opened w cfg be tr tr Hbe).
    rewrite (Verify_checks_wal_error w cfg be s h e tr tr1 Hwal). reflexivity.
  - intros be s h r tr1 tr2 Hbe Hwal Hidx.
    rewrite (Verify_opened w cfg be tr tr Hbe).
    rewrite (Verify_checks_index w cfg be s h tr tr1 tr2 Hwal), Hidx. reflexivity.
  - intros v Hbe. apply Verify_not_opened, Hbe.
  - intros be v tr1 Hbe Hpanic.
    rewrite (Verify_opened w cfg be tr tr1 Hbe), Hpanic. reflexivity.
  - intros c. unfold MustVerifyIfEnabled, bind.
    assert (Hne := VerifyIfEnabled_returns_or_panics w cfg tr).
    destruct (VerifyIfEnabled w cfg tr) as [[[e|]|v|c'|] t]; simpl in *; try tauto; try discriminate.
    intros _. exists e. reflexivity.
Qed.

Lemma Verify_returns_errors_and_never_exits_witness :
  fst (Verify unreadable_wal_world (sample_config false) []) = Ret (Some "wal: file not found").
Proof.
  destruct (Verify_returns_errors_and_never_exits unreadable_wal_world (sample_config false) [])
    as (_ & Hwal & _).
  apply (Hwal (sample_backend 0 0) None None "wal: file not found" []); reflexivity.
Defined.

(** ** The trace only grows *)

Lemma grows_ret {A} (a : A) : grows (ret a).
Proof. intros tr. exists []. symmetry. apply app_nil_r. Qed.

Lemma grows_panic {A} (v : string) : grows (@panic trace A v).
Proof. intros tr. exists []. symmetry. apply app_nil_r. Qed.

Lemma grows_emit (ev : event) : grows (emit ev).
Proof. intros tr. exists [ev]. reflexivity. Qed.

Lemma grows_call {A} (ev : event) (r : fallible A) : grows (call ev r).
Proof. intros tr. exists [ev]. destruct r; reflexivity. Qed.

Lemma grows_bind {A B} (m : M trace A) (k : A -> M trace B) :
  grows m -> (forall a, grows (k a)) -> grows (bind m k).
Proof.
  intros Hm Hk tr. unfold bind. destruct (Hm tr) as [evs Hevs].
  destruct (m tr) as [[a|v|c|] t]; simpl in Hevs; subst t; try (exists evs; reflexivity).
  destruct (Hk a (tr ++ evs)%list) as [evs' Hevs'].
  exists (evs ++ evs')%list. rewrite Hevs'. symmetry. apply app_assoc.
Qed.

Lemma grows_deref {A} (p : option A) : grows (@deref trace A p).
Proof. destruct p; [apply grows_ret | apply grows_panic]. Qed.

Lemma grows_slice_index {A} (l : list A) (i : Z) : grows (@slice_index trace A l i).
Proof.
  unfold slice_index.
  destruct (if bool_decide (0 <= i)%Z then l !! Z.to_nat i else None); [apply grows_ret |].
  case_bool_decide; apply grows_panic.
Qed.

Lemma grows_zap_log lg lvl msg fields : grows (zap_log lg lvl msg fields).
Proof.
  destruct lg as [[|sink]|]; [apply grows_ret | apply grows_emit | apply grows_panic].
Qed.

Lemma grows_with_defer {A} (ev : event) (body : M trace A) :
  grows body -> grows (with_defer (emit ev) body).
Proof.
  intros Hb tr. unfold with_defer. destruct (Hb tr) as [evs Hevs].
  destruct (body tr) as [[a|v|c|] t]; simpl in *; subst t;
    try (exists evs; reflexivity); exists (evs ++ [ev])%list; symmetry; apply app_assoc.
Qed.

Create HintDb grows discriminated.
#[export] Hint Resolve grows_ret grows_panic grows_emit grows_call
  grows_deref grows_slice_index grows_zap_log : grows.

Ltac grows_step :=
  match goal with
  | |- grows (bind _ _) => apply grows_bind; [| intros ?]
  | |- grows (match ?x with _ => _ end) => destruct x
  | |- grows (if ?b then _ else _) => destruct b
  | |- grows _ => solve [auto with grows]
  end.

Lemma grows_Verify_checks w cfg be : grows (Verify_checks w cfg be).
Proof.
  unfold Verify_checks, validateWal, validateConsistentIndex, zap_Info.
  repeat grows_step.
Qed.

(** [Verify] always opens the backend of the data directory. *)
Lemma Verify_opens_backend w cfg tr :
  exists pre post,
    snd (Verify w cfg tr) = (tr ++ pre ++ EvBackendNew (Verify_beConfig w cfg) :: post)%list.
Proof.
  unfold Verify. fold (Verify_beConfig w cfg).
  destruct (grows_zap_log (Some match Logger cfg with Some l => l | None => NewNop end)
              InfoLevel "verification of persisted state"
              [zap_String "data-dir" (DataDir cfg)] tr) as [pre Hpre].
  unfold zap_Info. destruct (zap_log _ _ _ _ tr) as [o0 tr0]. simpl in Hpre. subst tr0.
  set (body := bind _ _).
  assert (Hbody : exists evs, snd (body (tr ++ pre)%list)
                   = ((tr ++ pre) ++ EvBackendNew (Verify_beConfig w cfg) :: evs)%list).
  { subst body. unfold bind at 1, call.
    destruct (backend_New w (Verify_beConfig w cfg)) as [be|v].
    - destruct (grows_with_defer EvBackendClose _ (grows_Verify_checks w cfg be)
                  ((tr ++ pre) ++ [EvBackendNew (Verify_beConfig w cfg)])%list) as [evs Hevs].
      exists evs. rewrite Hevs, <- app_assoc. reflexivity.
    - exists []. reflexivity. }
  destruct Hbody as [evs Hevs]. destruct (body (tr ++ pre)%list) as [o t]. simpl in Hevs. subst t.
  assert (Hlog : forall lvl msg fields (t : trace),
             exists evs', snd (zap_log (Some match Logger cfg with Some l => l | None => NewNop end)
                                 lvl msg fields t) = (t ++ evs')%list)
    by (intros; apply grows_zap_log).
  unfold zap_Error_.
  destruct o as [[[e|] r]|v|c|];
    try (match goal with
         | |- context [zap_log ?lg ?lvl ?msg ?fs ?t] =>
             destruct (Hlog lvl msg fs t) as [evs' Hevs'];
             destruct (zap_log lg lvl msg fs t) as [o' t']; simpl in Hevs'; subst t'
         end; exists pre, (evs ++ evs')%list; cbn [snd];
         rewrite <- !app_assoc; reflexivity);
    exists pre, evs; cbn [snd]; rewrite <- !app_assoc; reflexivity.
Qed.

Lemma Verify_changes_trace w cfg tr : snd (Verify w cfg tr) <> tr.
Proof.
  destruct (Verify_opens_backend w cfg tr) as (pre & post & H). rewrite H. intros Heq.
  apply (f_equal length) in Heq. rewrite !length_app in Heq. simpl in Heq. lia.
Qed.



End verify_spec.

(** * Properties of package etcdserver *)

Module etcdserver_spec.
Import etcdserver.

(** Reading a field of an updated state. *)
Ltac world_simpl :=
  unfold upd_w, upd_chans, upd_proposed, upd_stopping, upd_store_st, upd_idgen_st, upd_term,
    upd_committedIndex, upd_now, upd_ctx_done, upd_sched, upd_pick, upd_stdout in *;
  cbn [w chans proposed stopping store_st idgen_st term committedIndex now ctx_done sched pick
       stdout fst snd] in *.

Section server.

Variables (Store IDGen : Type).
Variable Marshal : RequestV2 -> list Byte.byte * option error.
Variable idutil_Next : IDGen -> N * IDGen.
Variable parseProposeCtxErr : World Store IDGen -> option ctx_error -> N -> error.

Local Abbreviation World := (World Store IDGen).
Local Abbreviation Register := (Register Store IDGen).
Local Abbreviation Trigger := (Trigger Store IDGen).
Local Abbreviation Propose := (Propose Store IDGen).
Local Abbreviation env_step := (env_step Store IDGen).
Local Abbreviation env_run := (env_run Store IDGen).
Local Abbreviation ready_cases := (ready_cases Store IDGen).
Local Abbreviation select := (select Store IDGen).
Local Abbreviation suspended := (suspended Store IDGen).
Local Abbreviation wake := (wake Store IDGen).
Local Abbreviation at_wake := (at_wake Store IDGen).
Local Abbreviation processRaftRequest :=
  (processRaftRequest Store IDGen Marshal parseProposeCtxErr).
Local Abbreviation server_handler :=
  (reqV2HandlerEtcdServer_handler Store IDGen Marshal parseProposeCtxErr).
Local Abbreviation Handle_server :=
  (@Handle Store IDGen (reqV2HandlerEtcdServer Store) server_handler).
Local Abbreviation Do := (Do Store IDGen Marshal idutil_Next parseProposeCtxErr).

Implicit Types (σ : World) (id : N) (ch : nat) (x : iface) (r : RequestV2) (ctx : Context).

(** ** The Pending-Call Table *)

Lemma Trigger_returns id x σ : fst (Trigger id x σ) = Ret tt.
Proof. unfold etcdserver.Trigger. destruct (w σ !! id); reflexivity. Qed.

Lemma Trigger_absent id x σ : w σ !! id = None -> Trigger id x σ = (Ret tt, σ).
Proof. intros H. unfold etcdserver.Trigger. rewrite H. reflexivity. Qed.

Lemma Trigger_removes id x σ : w (snd (Trigger id x σ)) !! id = None.
Proof.
  unfold etcdserver.Trigger. destruct (w σ !! id) eqn:E; world_simpl;
    [apply lookup_delete_eq | exact E].
Qed.

Lemma Trigger_twice id x y σ :
  Trigger id y (snd (Trigger id x σ)) = (Ret tt, snd (Trigger id x σ)).
Proof. apply Trigger_absent, Trigger_removes. Qed.

Lemma Trigger_frame id x σ :
  let σ' := snd (Trigger id x σ) in
  proposed σ' = proposed σ /\ stopping σ' = stopping σ /\ ctx_done σ' = ctx_done σ /\
  now σ' = now σ /\ term σ' = term σ /\ committedIndex σ' = committedIndex σ.
Proof. unfold etcdserver.Trigger. destruct (w σ !! id); world_simpl; repeat split. Qed.

(** ** The slot of a waiting caller *)

Lemma Register_fresh id σ :
  w σ !! id = None ->
  Register id σ = (Ret (length (chans σ)),
                   upd_chans Store IDGen (fun c => (c ++ [[]])%list)
                     (upd_w Store IDGen (fun t => <[id := length (chans σ)]> t) σ)).
Proof. intros H. unfold etcdserver.Register. rewrite H. reflexivity. Qed.

Lemma suspended_pending ctx r data σ :
  table_wf σ -> w σ !! ID r = None ->
  slot_pending (ID r) (length (chans σ)) (suspended ctx r data σ).
Proof.
  intros Hwf Hfresh. unfold etcdserver.suspended. rewrite (Register_fresh _ _ Hfresh).
  unfold slot_pending, etcdserver.Propose, modify. world_simpl.
  split; [apply lookup_insert_eq |]. split.
  - apply list_lookup_middle. reflexivity.
  - intros id' Hne. rewrite lookup_insert_ne by congruence.
    intros Hid'. apply Hwf in Hid'. lia.
Qed.

Lemma env_run_cons a l σ : env_run (a :: l) σ = env_run l (env_step a σ).
Proof. reflexivity. Qed.

Lemma env_step_retired id ch a σ :
  slot_retired id ch σ ->
  slot_retired id ch (env_step a σ) /\ chans (env_step a σ) !! ch = chans σ !! ch.
Proof.
  intros [Hid Hch]. unfold slot_retired.
  destruct a as [id' x|c e| |dt|t c]; cbn [etcdserver.env_step].
  - unfold etcdserver.Trigger. destruct (w σ !! id') as [c|] eqn:E; world_simpl.
    + assert (c <> ch) by (intros ->; exact (Hch id' E)).
      split; [split |].
      * destruct (decide (id' = id)) as [->|]; [apply lookup_delete_eq |].
        rewrite lookup_delete_ne by done. exact Hid.
      * intros id''. destruct (decide (id' = id'')) as [->|].
        -- rewrite lookup_delete_eq. discriminate.
        -- rewrite lookup_delete_ne by done. apply Hch.
      * apply list_lookup_alter_ne. done.
    + split; [split; assumption | reflexivity].
  - destruct (ctx_done σ !! c); world_simpl; (split; [split; assumption | reflexivity]).
  - world_simpl. split; [split; assumption | reflexivity].
  - world_simpl. split; [split; assumption | reflexivity].
  - world_simpl. split; [split; assumption | reflexivity].
Qed.

Lemma env_run_retired id ch l σ :
  slot_retired id ch σ ->
  slot_retired id ch (env_run l σ) /\ chans (env_run l σ) !! ch = chans σ !! ch.
Proof.
  revert σ. induction l as [|a l IH]; intros σ Hret; [split; [exact Hret | reflexivity] |].
  rewrite env_run_cons. destruct (env_step_retired id ch a σ Hret) as [Hret' Heq].
  destruct (IH _ Hret') as [Hret'' Heq']. split; [exact Hret'' | congruence].
Qed.

Lemma env_step_pending id ch a σ :
  slot_pending id ch σ ->
  slot_pending id ch (env_step a σ) \/
  (slot_retired id ch (env_step a σ) /\ exists x, chans (env_step a σ) !! ch = Some [x]).
Proof.
  intros (Hid & Hbuf & Hoth). unfold slot_pending, slot_retired.
  destruct a as [id' x|c e| |dt|t c]; cbn [etcdserver.env_step].
  - unfold etcdserver.Trigger. destruct (decide (id' = id)) as [->|Hne].
    + right. rewrite Hid. world_simpl. split; [split |].
      * apply lookup_delete_eq.
      * intros id''. destruct (decide (id = id'')) as [<-|Hne].
        -- rewrite lookup_delete_eq. discriminate.
        -- rewrite lookup_delete_ne by done. apply Hoth. congruence.
      * exists x. rewrite list_lookup_alter_eq, Hbuf. reflexivity.
    + left. destruct (w σ !! id') as [c|] eqn:E; world_simpl; [| repeat split; assumption].
      assert (c <> ch) by (intros ->; exact (Hoth id' Hne E)).
      split; [| split].
      * rewrite lookup_delete_ne by done. exact Hid.
      * rewrite list_lookup_alter_ne by done. exact Hbuf.
      * intros id'' Hne''. destruct (decide (id' = id'')) as [->|].
        -- rewrite lookup_delete_eq. discriminate.
        -- rewrite lookup_delete_ne by done. apply Hoth, Hne''.
  - left. destruct (ctx_done σ !! c); world_simpl; repeat split; assumption.
  - left. world_simpl. repeat split; assumption.
  - left. world_simpl. repeat split; assumption.
  - left. world_simpl. repeat split; assumption.
Qed.

Lemma env_run_pending id ch l σ :
  slot_pending id ch σ ->
  slot_pending id ch (env_run l σ) \/
  (slot_retired id ch (env_run l σ) /\ exists x, chans (env_run l σ) !! ch = Some [x]).
Proof.
  revert σ. induction l as [|a l IH]; intros σ Hp; [left; exact Hp |].
  rewrite env_run_cons.
  destruct (env_step_pending id ch a σ Hp) as [Hp'|[Hret [x Hx]]]; [apply IH, Hp' |].
  right. destruct (env_run_retired id ch l _ Hret) as [Hret' Heq].
  split; [exact Hret' |]. exists x. congruence.
Qed.

(** ** select *)

Lemma ready_cases_ch ctx ch σ x :
  RecvCh x ∈ ready_cases ctx ch σ -> exists rest, chans σ !! ch = Some (x :: rest).
Proof.
  unfold etcdserver.ready_cases. rewrite !elem_of_app. intros [H|[H|H]].
  - destruct (chans σ !! ch) as [[|y rest]|]; try (apply elem_of_nil in H; contradiction).
    apply list_elem_of_singleton in H. injection H as ->. eauto.
  - destruct (ctx_done σ !! ctx); [apply list_elem_of_singleton in H | apply elem_of_nil in H];
      done.
  - destruct (stopping σ); [apply list_elem_of_singleton in H | apply elem_of_nil in H]; done.
Qed.

Lemma ready_cases_done ctx ch σ :
  RecvDone ∈ ready_cases ctx ch σ -> exists e, ctx_done σ !! ctx = Some e.
Proof.
  unfold etcdserver.ready_cases. rewrite !elem_of_app. intros [H|[H|H]].
  - destruct (chans σ !! ch) as [[|y rest]|]; try (apply elem_of_nil in H; contradiction).
    apply list_elem_of_singleton in H. discriminate.
  - destruct (ctx_done σ !! ctx) as [e|]; [eauto | apply elem_of_nil in H; contradiction].
  - destruct (stopping σ); [apply list_elem_of_singleton in H | apply elem_of_nil in H]; done.
Qed.

Lemma ready_cases_stopping ctx ch σ :
  RecvStopping ∈ ready_cases ctx ch σ -> stopping σ = true.
Proof.
  unfold etcdserver.ready_cases. rewrite !elem_of_app. intros [H|[H|H]].
  - destruct (chans σ !! ch) as [[|y rest]|]; try (apply elem_of_nil in H; contradiction).
    apply list_elem_of_singleton in H. discriminate.
  - destruct (ctx_done σ !! ctx); [apply list_elem_of_singleton in H | apply elem_of_nil in H];
      done.
  - destruct (stopping σ); [reflexivity | apply elem_of_nil in H; contradiction].
Qed.

Lemma select_taken ctx ch σ c σ1 :
  select ctx ch σ = (Ret c, σ1) ->
  let σw := env_run (sched σ) (upd_sched Store IDGen (fun _ => []) σ) in
  c ∈ ready_cases ctx ch σw /\
  σ1 = match c with
       | RecvCh _ => upd_chans Store IDGen (fun cs => alter (drop 1) ch cs) σw
       | _ => σw
       end.
Proof.
  intros H σw. unfold etcdserver.select in H. cbv zeta in H. fold σw in H.
  destruct (ready_cases ctx ch σw !! _) as [c'|] eqn:E; [| discriminate].
  apply list_elem_of_lookup_2 in E.
  destruct c'; injection H as <- <-; split; auto.
Qed.

(** ** processRaftRequest *)

Lemma processRaftRequest_run a ctx r data σ :
  Marshal r = (data, None) -> w σ !! ID r = None ->
  processRaftRequest a ctx r σ =
  match wake ctx r data σ with
  | (Ret (RecvCh (IResponse resp)), σ1) => (Ret (resp, Err resp), σ1)
  | (Ret (RecvCh INil), σ1) =>
      (Panic "interface conversion: interface {} is nil, not etcdserver.Response", σ1)
  | (Ret (RecvCh (IOther t)), σ1) =>
      (Panic ("interface conversion: interface {} is " +:+ t +:+ ", not etcdserver.Response"), σ1)
  | (Ret RecvDone, σ1) =>
      let σ2 := snd (Trigger (ID r) INil σ1) in
      (Ret (Response_zero, Some (parseProposeCtxErr σ2 (ctx_done σ2 !! ctx) (now σ))), σ2)
  | (Ret RecvStopping, σ1) =>
      (Ret (Response_zero, Some ErrStopped),
       upd_stdout Store IDGen (fun o => (o ++ ["<-a.s.stopping {}"])%list) σ1)
  | (Panic v, σ1) => (Panic v, σ1)
  | (Exit c, σ1) => (Exit c, σ1)
  | (Blocked, σ1) => (Blocked, σ1)
  end.
Proof.
  intros HM Hfresh. unfold etcdserver.processRaftRequest, etcdserver.wake, etcdserver.suspended.
  rewrite HM. unfold bind at 1. rewrite (Register_fresh _ _ Hfresh).
  unfold bind at 1, get. unfold bind at 1, etcdserver.Propose, modify. cbn [snd].
  unfold bind at 1.
  match goal with |- context [select ctx ?c ?st] => destruct (select ctx c st) as [[c'|v|e|] σ1] end;
    try reflexivity.
  destruct c' as [[|resp|t]| |]; try reflexivity.
  - unfold bind, get. rewrite (surjective_pairing (Trigger (ID r) INil σ1)), Trigger_returns.
    world_simpl. reflexivity.
Qed.

Lemma wake_taken ctx r data σ c :
  fst (wake ctx r data σ) = Ret c ->
  c ∈ ready_cases ctx (length (chans σ)) (at_wake ctx r data σ) /\
  snd (wake ctx r data σ) =
    match c with
    | RecvCh _ => upd_chans Store IDGen (fun cs => alter (drop 1) (length (chans σ)) cs)
                    (at_wake ctx r data σ)
    | _ => at_wake ctx r data σ
    end.
Proof.
  intros Hc. destruct (wake ctx r data σ) as [o σ1] eqn:Hw. cbn [fst snd] in *. subst o.
  apply select_taken in Hw. exact Hw.
Qed.



(** ** Handle *)

Lemma Handle_other_kind {H} {handler : RequestV2Handler Store IDGen H} r ctx (v2api : H) σ :
  Method r <> "GET" \/ Quorum r = false ->
  Handle Store IDGen r ctx v2api σ =
  bind (if String.eqb (Method r) "POST" then Post Store IDGen v2api ctx r
        else if String.eqb (Method r) "PUT" then Put Store IDGen v2api ctx r
        else if String.eqb (Method r) "DELETE" then Delete Store IDGen v2api ctx r
        else if String.eqb (Method r) "QGET" then QGet Store IDGen v2api ctx r
        else if String.eqb (Method r) "GET" then Get Store IDGen v2api ctx r
        else if String.eqb (Method r) "HEAD" then Head Store IDGen v2api ctx r
        else ret (Response_zero, Some ErrUnknownMethod))
       (fun res => ret (r, res)) σ.
Proof.
  intros Hk. unfold etcdserver.Handle.
  assert (Hsame : (if String.eqb (Method r) "GET" && Quorum r then set_Method "QGET" r else r)
                  = r).
  { destruct Hk as [Hk| ->]; [| rewrite andb_false_r; reflexivity].
    apply String.eqb_neq in Hk. rewrite Hk. reflexivity. }
  rewrite Hsame. reflexivity.
Qed.

Lemma Handle_quorum_get {H} {handler : RequestV2Handler Store IDGen H} r ctx (v2api : H) σ :
  Method r = "GET" -> Quorum r = true ->
  Handle Store IDGen r ctx v2api σ =
  bind (QGet Store IDGen v2api ctx (set_Method "QGET" r))
       (fun res => ret (set_Method "QGET" r, res)) σ.
Proof. intros HG HQ. unfold etcdserver.Handle. rewrite HG, HQ. reflexivity. Qed.

(** C3: a request whose Method is none of POST, PUT, DELETE, QGET, GET and
    HEAD gets the empty Response and [ErrUnknownMethod], whatever the
    handler, and the state is untouched: no slot is registered and nothing
    is proposed. *)
Theorem Handle_unknown_method {H} {handler : RequestV2Handler Store IDGen H}
    r ctx (v2api : H) σ :
  Method r ∉ ["POST"; "PUT"; "DELETE"; "QGET"; "GET"; "HEAD"] ->
  Handle Store IDGen r ctx v2api σ = (Ret (r, (Response_zero, Some ErrUnknownMethod)), σ).
Proof.
  intros Hm. rewrite !not_elem_of_cons in Hm.
  destruct Hm as (H1 & H2 & H3 & H4 & H5 & H6 & _).
  rewrite Handle_other_kind by (left; exact H5).
  apply String.eqb_neq in H1, H2, H3, H4, H5, H6.
  rewrite H1, H2, H3, H4, H5, H6. reflexivity.
Qed.

(** C4: a GET with Quorum set is given to the QGet method of the handler
    with its Method rewritten to QGET, which for the handler of the server
    is [processRaftRequest]; a GET without Quorum and a HEAD are answered
    from the local store (store.Watch for a waiting GET, store.Get
    otherwise): the call returns, and neither the table of pending calls
    nor the list of proposals changes. *)
Theorem Handle_quorum_get_and_local_reads (a : reqV2HandlerEtcdServer Store) r ctx σ :
  (Method r = "GET" -> Quorum r = true ->
   (forall H (handler : RequestV2Handler Store IDGen H) (v2api : H),
       Handle Store IDGen r ctx v2api σ =
       bind (QGet Store IDGen v2api ctx (set_Method "QGET" r))
            (fun res => ret (set_Method "QGET" r, res)) σ) /\
   Handle_server r ctx a σ =
   bind (processRaftRequest a ctx (set_Method "QGET" r))
        (fun res => ret (set_Method "QGET" r, res)) σ) /\
  (Method r = "GET" -> Quorum r = false -> Wait r = true ->
   forall wc err st,
     store_Watch Store (store Store (embedded Store a))
       (Path r) (Recursive r) (Stream r) (Since r) (store_st σ) = ((wc, err), st) ->
     Handle_server r ctx a σ =
     (Ret (r, ({| Term := 0; Index := 0; Event := None; Watcher := wc; Err := None |}, err)),
      upd_store_st Store IDGen (fun _ => st) σ)) /\
  (Method r = "GET" -> Quorum r = false -> Wait r = false ->
   forall ev err st,
     store_Get Store (store Store (embedded Store a))
       (Path r) (Recursive r) (Sorted r) (store_st σ) = ((ev, err), st) ->
     Handle_server r ctx a σ =
     (Ret (r, ({| Term := 0; Index := 0; Event := ev; Watcher := None; Err := None |}, err)),
      upd_store_st Store IDGen (fun _ => st) σ)) /\
  (Method r = "HEAD" ->
   forall ev err st,
     store_Get Store (store Store (embedded Store a))
       (Path r) (Recursive r) (Sorted r) (store_st σ) = ((ev, err), st) ->
     Handle_server r ctx a σ =
     (Ret (r, ({| Term := 0; Index := 0; Event := ev; Watcher := None; Err := None |}, err)),
      upd_store_st Store IDGen (fun _ => st) σ)) /\
  ((Method r = "GET" /\ Quorum r = false) \/ Method r = "HEAD" ->
   (exists res, fst (Handle_server r ctx a σ) = Ret (r, res)) /\
   w (snd (Handle_server r ctx a σ)) = w σ /\
   chans (snd (Handle_server r ctx a σ)) = chans σ /\
   proposed (snd (Handle_server r ctx a σ)) = proposed σ).
Proof.
  assert (Hwatch : Method r = "GET" -> Quorum r = false -> Wait r = true ->
    forall wc err st,
     store_Watch Store (store Store (embedded Store a))
       (Path r) (Recursive r) (Stream r) (Since r) (store_st σ) = ((wc, err), st) ->
     Handle_server r ctx a σ =
     (Ret (r, ({| Term := 0; Index := 0; Event := None; Watcher := wc; Err := None |}, err)),
      upd_store_st Store IDGen (fun _ => st) σ)).
  { intros HG HQ HW wc err st Hst. rewrite Handle_other_kind by (right; exact HQ).
    rewrite HG. cbn [String.eqb Ascii.eqb Bool.eqb].
    cbn [Get server_handler etcdserver.reqV2HandlerEtcdServer_handler].
    unfold etcdserver.reqV2HandlerStore_Get, bind, on_store. rewrite HW, Hst. reflexivity. }
  assert (Hget : Method r = "GET" -> Quorum r = false -> Wait r = false ->
    forall ev err st,
     store_Get Store (store Store (embedded Store a))
       (Path r) (Recursive r) (Sorted r) (store_st σ) = ((ev, err), st) ->
     Handle_server r ctx a σ =
     (Ret (r, ({| Term := 0; Index := 0; Event := ev; Watcher := None; Err := None |}, err)),
      upd_store_st Store IDGen (fun _ => st) σ)).
  { intros HG HQ HW ev err st Hst. rewrite Handle_other_kind by (right; exact HQ).
    rewrite HG. cbn [String.eqb Ascii.eqb Bool.eqb].
    cbn [Get server_handler etcdserver.reqV2HandlerEtcdServer_handler].
    unfold etcdserver.reqV2HandlerStore_Get, bind, on_store. rewrite HW, Hst. reflexivity. }
  assert (Hhead : Method r = "HEAD" ->
    forall ev err st,
     store_Get Store (store Store (embedded Store a))
       (Path r) (Recursive r) (Sorted r) (store_st σ) = ((ev, err), st) ->
     Handle_server r ctx a σ =
     (Ret (r, ({| Term := 0; Index := 0; Event := ev; Watcher := None; Err := None |}, err)),
      upd_store_st Store IDGen (fun _ => st) σ)).
  { intros HH ev err st Hst. rewrite Handle_other_kind by (left; rewrite HH; discriminate).
    rewrite HH. cbn [String.eqb Ascii.eqb Bool.eqb].
    cbn [Head server_handler etcdserver.reqV2HandlerEtcdServer_handler].
    unfold etcdserver.reqV2HandlerStore_Head, bind, on_store. rewrite Hst. reflexivity. }
  split; [| split; [exact Hwatch | split; [exact Hget | split; [exact Hhead |]]]].
  - intros HG HQ. split; [intros; apply Handle_quorum_get; assumption |].
    apply (Handle_quorum_get (handler := server_handler)); assumption.
  - intros [[HG HQ]|HH].
    + destruct (Wait r) eqn:HW.
      * destruct (store_Watch Store (store Store (embedded Store a))
                    (Path r) (Recursive r) (Stream r) (Since r) (store_st σ))
          as [[wc err] st] eqn:Hst.
        rewrite (Hwatch HG HQ eq_refl wc err st eq_refl). world_simpl. eauto.
      * destruct (store_Get Store (store Store (embedded Store a))
                    (Path r) (Recursive r) (Sorted r) (store_st σ)) as [[ev err] st] eqn:Hst.
        rewrite (Hget HG HQ eq_refl ev err st eq_refl). world_simpl. eauto.
    + destruct (store_Get Store (store Store (embedded Store a))
                  (Path r) (Recursive r) (Sorted r) (store_st σ)) as [[ev err] st] eqn:Hst.
      rewrite (Hhead HH ev err st eq_refl). world_simpl. eauto.
Qed.


(** C10: the Response that [Do] returns carries the term and the committed
    index of the server at the moment of the return, in place of whatever
    the handler had put there, and this whether the handler returned an
    error or not. *)
Theorem Do_overwrites_term_and_index srv ctx r σ :
  (forall id g r' resp err σ',
      idutil_Next (idgen_st σ) = (id, g) ->
      Handle_server (set_ID id r) ctx
        {| embedded := {| store := v2store Store srv; applier := applyV2 Store srv |};
           s := srv |}
        (upd_idgen_st Store IDGen (fun _ => g) σ) = (Ret (r', (resp, err)), σ') ->
      Do srv ctx r σ = (Ret (set_Term_Index (term σ') (committedIndex σ') resp, err), σ')) /\
  (forall resp err σ',
      Do srv ctx r σ = (Ret (resp, err), σ') ->
      Term resp = term σ' /\ Index resp = committedIndex σ').
Proof.
  split.
  - intros id g r' resp err σ' Hnext Hrun.
    unfold etcdserver.Do, bind at 1, etcdserver.reqIDGen_Next. rewrite Hnext.
    unfold bind at 1. rewrite Hrun. reflexivity.
  - intros resp err σ' Hdo.
    unfold etcdserver.Do, bind at 1, etcdserver.reqIDGen_Next in Hdo.
    destruct (idutil_Next (idgen_st σ)) as [id g].
    unfold bind at 1 in Hdo.
    match type of Hdo with
    | context [Handle ?S ?I ?r0 ?c ?h ?st] =>
        destruct (Handle S I r0 c h st) as [[[r' [resp0 err0]]|v|c0|] σ1]
    end; try discriminate.
    unfold bind, get, ret in Hdo. injection Hdo as <- <- <-. split; reflexivity.
Qed.

End server.

(** ** The properties on the sample server *)

Lemma table_wf_sample env : table_wf (sample_state env).
Proof. intros id ch H. cbn [w sample_state] in H. rewrite lookup_empty in H. discriminate. Qed.


(** Scenarios A and B of the specification. *)
Example scenario_A :
  fst (sample_processRaftRequest 1%nat (set_ID 5 (sample_request "PUT" false))
         (sample_state [EnvTrigger 5 (IResponse sample_response)]))
  = Ret (sample_response, None).
Proof. vm_compute. reflexivity. Qed.

Example scenario_B :
  let out := sample_processRaftRequest 1%nat sample_put (sample_state [EnvCancel 1%nat Canceled]) in
  fst out = Ret (Response_zero, Some (ErrOther "etcdserver: request cancelled")) /\
  Trigger unit N 7 (IResponse sample_response) (snd out) = (Ret tt, snd out).
Proof. vm_compute. split; reflexivity. Qed.



Lemma Handle_unknown_method_witness :
  sample_Handle (sample_request "PATCH" false) 1%nat sample_handler (sample_state [EnvStop])
  = (Ret (sample_request "PATCH" false, (Response_zero, Some ErrUnknownMethod)),
     sample_state [EnvStop]).
Proof.
  apply (Handle_unknown_method unit N (sample_request "PATCH" false) 1%nat sample_handler
           (sample_state [EnvStop])).
  cbn [Method sample_request]. rewrite !not_elem_of_cons.
  repeat split; try discriminate. apply not_elem_of_nil.
Defined.

Lemma Handle_quorum_get_and_local_reads_witness :
  sample_Handle (sample_request "GET" true) 1%nat sample_handler (sample_state [EnvStop])
  = bind (sample_processRaftRequest 1%nat (set_Method "QGET" (sample_request "GET" true)))
         (fun res => ret (set_Method "QGET" (sample_request "GET" true), res))
         (sample_state [EnvStop]) /\
  proposed (snd (sample_Handle (sample_request "GET" false) 1%nat sample_handler
                   (sample_state [EnvStop]))) = [].
Proof.
  split.
  - apply (Handle_quorum_get_and_local_reads unit N sample_Marshal sample_parseProposeCtxErr
             sample_handler (sample_request "GET" true) 1%nat (sample_state [EnvStop]));
      reflexivity.
  - apply (Handle_quorum_get_and_local_reads unit N sample_Marshal sample_parseProposeCtxErr
             sample_handler (sample_request "GET" false) 1%nat (sample_state [EnvStop])).
    left. split; reflexivity.
Defined.



Lemma Do_overwrites_term_and_index_witness :
  exists resp err σ',
    sample_Do 1%nat (sample_request "PUT" false)
      (sample_state [EnvRaft 4 50; EnvTrigger 7 (IResponse sample_response)])
    = (Ret (resp, err), σ') /\
    Term resp = 4%N /\ Index resp = 50%N /\ err = None.
Proof.
  eassert (Hrun : sample_Do 1%nat (sample_request "PUT" false)
                    (sample_state [EnvRaft 4 50; EnvTrigger 7 (IResponse sample_response)])
                  = (Ret (_, _), _)) by (vm_compute; reflexivity).
  destruct (Do_overwrites_term_and_index unit N sample_Marshal sample_Next
              sample_parseProposeCtxErr sample_server 1%nat (sample_request "PUT" false)
              (sample_state [EnvRaft 4 50; EnvTrigger 7 (IResponse sample_response)]))
    as [_ Hstamp].
  destruct (Hstamp _ _ _ Hrun) as [HT HI].
  eexists _, _, _. split; [exact Hrun |]. split; [exact HT |]. split; [exact HI | reflexivity].
Defined.

End etcdserver_spec.

(** * Further properties of package verify *)

Module verify_extra.
Import verify verify_more verify_spec.

(** ** What is added to the trace *)

Lemma emits_weaken {A} (P Q : event -> Prop) (m : M trace A) :
  (forall ev, P ev -> Q ev) -> emits P m -> emits Q m.
Proof.
  intros HPQ Hm tr. destruct (Hm tr) as (evs & Heq & HP). exists evs. split; [exact Heq |].
  eapply Forall_impl; eauto.
Qed.

Lemma emits_ret {A} P (a : A) : emits P (ret a).
Proof. intros tr. exists []. split; [symmetry; apply app_nil_r | constructor]. Qed.

Lemma emits_panic {A} P (v : string) : emits P (@panic trace A v).
Proof. intros tr. exists []. split; [symmetry; apply app_nil_r | constructor]. Qed.

Lemma emits_emit (P : event -> Prop) (ev : event) : P ev -> emits P (emit ev).
Proof. intros HP tr. exists [ev]. split; [reflexivity | repeat constructor; exact HP]. Qed.

Lemma emits_call {A} (P : event -> Prop) (ev : event) (r : fallible A) :
  P ev -> emits P (call ev r).
Proof.
  intros HP tr. exists [ev]. split; [destruct r; reflexivity | repeat constructor; exact HP].
Qed.

Lemma emits_bind {A B} P (m : M trace A) (k : A -> M trace B) :
  emits P m -> (forall a, emits P (k a)) -> emits P (bind m k).
Proof.
  intros Hm Hk tr. unfold bind. destruct (Hm tr) as (evs & Hevs & HP).
  destruct (m tr) as [[a|v|c|] t]; simpl in Hevs; subst t; try (exists evs; split; [reflexivity | exact HP]).
  destruct (Hk a (tr ++ evs)%list) as (evs' & Hevs' & HP').
  exists (evs ++ evs')%list. split; [rewrite Hevs'; symmetry; apply app_assoc |].
  apply Forall_app; split; assumption.
Qed.

Lemma emits_deref {A} P (p : option A) : emits P (@deref trace A p).
Proof. destruct p; [apply emits_ret | apply emits_panic]. Qed.

Lemma emits_slice_index {A} P (l : list A) (i : Z) : emits P (@slice_index trace A l i).
Proof.
  unfold slice_index.
  destruct (if bool_decide (0 <= i)%Z then l !! Z.to_nat i else None); [apply emits_ret |].
  case_bool_decide; apply emits_panic.
Qed.

Lemma emits_zap_log (P : event -> Prop) lg lvl msg fields :
  (forall sink, P (EvLog sink lvl msg fields)) -> emits P (zap_log lg lvl msg fields).
Proof.
  intros HP. destruct lg as [[|sink]|]; [apply emits_ret | apply emits_emit, HP | apply emits_panic].
Qed.

Ltac emits_step :=
  match goal with
  | |- emits _ (bind _ _) => apply emits_bind; [| intros ?]
  | |- emits _ (match ?x with _ => _ end) => destruct x
  | |- emits _ (if ?b then _ else _) => destruct b
  | |- emits _ (ret _) => apply emits_ret
  | |- emits _ (panic _) => apply emits_panic
  | |- emits _ (deref _) => apply emits_deref
  | |- emits _ (slice_index _ _) => apply emits_slice_index
  | |- emits _ (emit _) => apply emits_emit; exact I
  | |- emits _ (call _ _) => apply emits_call; exact I
  | |- emits _ (zap_log _ _ _ _) => apply emits_zap_log; intros; exact I
  end.

Lemma emits_validateWal w cfg : emits is_wal_read (validateWal w cfg).
Proof. unfold validateWal. repeat emits_step. Qed.

Lemma emits_validateConsistentIndex cfg h s be :
  emits (fun ev => is_check_event ev /\ is_quiet_event ev) (validateConsistentIndex cfg h s be).
Proof.
  unfold validateConsistentIndex, zap_Info.
  repeat match goal with
         | |- emits _ (bind _ _) => apply emits_bind; [| intros ?]
         | |- emits _ (match ?x with _ => _ end) => destruct x
         | |- emits _ (if ?b then _ else _) => destruct b
         | |- emits _ (ret _) => apply emits_ret
         | |- emits _ (deref _) => apply emits_deref
         | |- emits _ (emit _) => apply emits_emit; split; exact I
         | |- emits _ (zap_log _ _ _ _) => apply emits_zap_log; intros; split; exact I
         end.
Qed.

Lemma emits_Verify_checks w cfg be :
  emits (fun ev => is_check_event ev /\ is_quiet_event ev) (Verify_checks w cfg be).
Proof.
  unfold Verify_checks. apply emits_bind.
  - eapply emits_weaken; [| apply emits_validateWal]. intros [] H; try contradiction; split; exact I.
  - intros [[s h] [e|]]; [apply emits_ret |].
    apply emits_bind; [apply emits_validateConsistentIndex | intros; apply emits_ret].
Qed.

(** ** The trace of Verify *)

Lemma Verify_trace w cfg be tr :
  backend_New w (Verify_beConfig w cfg) = Returns be ->
  let lg := Some (match Logger cfg with Some l => l | None => NewNop end) in
  let t0 := (snd (zap_Info lg "verification of persisted state" [data_dir_field cfg] tr)
             ++ [EvBackendNew (Verify_beConfig w cfg)])%list in
  let t1 := (snd (Verify_checks w cfg be t0) ++ [EvBackendClose])%list in
  snd (Verify w cfg tr) =
  match fst (Verify_checks w cfg be t0) with
  | Ret (Some err, _) =>
      snd (zap_Error_ lg "verification of persisted state failed"
             [data_dir_field cfg; zap_Error err] t1)
  | Ret (None, _) =>
      snd (zap_Info lg "verification of persisted state successful" [data_dir_field cfg] t1)
  | Panic _ =>
      snd (zap_Error_ lg "verification of persisted state failed" [data_dir_field cfg] t1)
  | _ => snd (Verify_checks w cfg be t0)
  end.
Proof.
  intros Hbe lg t0 t1. unfold Verify. fold (Verify_beConfig w cfg) (data_dir_field cfg). fold lg.
  subst t1 t0.
  destruct (zap_Info lg "verification of persisted state" [data_dir_field cfg] tr) as [o0 tr0].
  cbn [snd]. unfold bind at 1. unfold call. rewrite Hbe. unfold with_defer.
  destruct (Verify_checks w cfg be (tr0 ++ [EvBackendNew (Verify_beConfig w cfg)])%list)
    as [[[[e|] r]|v|c|] t]; cbn [fst snd emit modify];
    repeat match goal with |- context [let '(_, _) := ?x in _] => destruct x end; reflexivity.
Qed.

Lemma zap_log_trace (P : event -> Prop) lg lvl msg fields tr :
  (forall sink, P (EvLog sink lvl msg fields)) ->
  exists post, snd (zap_log lg lvl msg fields tr) = (tr ++ post)%list /\ Forall P post.
Proof. intros HP. apply (emits_zap_log P lg lvl msg fields HP). Qed.

(** X1: when the backend can be opened, [Verify] closes it exactly once,
    after every read of the log and of the consistent index and before it
    reports the result, and this on every path, also when the checks return
    an error or panic. *)
Theorem Verify_closes_backend w cfg be tr :
  backend_New w (Verify_beConfig w cfg) = Returns be ->
  exists pre mid post,
    snd (Verify w cfg tr) =
      (tr ++ pre ++ EvBackendNew (Verify_beConfig w cfg) :: mid ++ EvBackendClose :: post)%list /\
    Forall is_log pre /\ Forall is_check_event mid /\ Forall is_log post.
Proof.
  intros Hbe. rewrite (Verify_trace w cfg be tr Hbe). cbv zeta.
  set (lg := Some match Logger cfg with Some l => l | None => NewNop end).
  unfold zap_Info at 1 2. unfold zap_Info, zap_Error_.
  destruct (zap_log_trace is_log lg InfoLevel "verification of persisted state"
              [data_dir_field cfg] tr (fun _ => I)) as (pre & Hpre & HPpre).
  rewrite Hpre.
  set (t0 := ((tr ++ pre) ++ [EvBackendNew (Verify_beConfig w cfg)])%list).
  destruct (emits_Verify_checks w cfg be t0) as (mid & Hmid & HPmid).
  assert (Hne := no_exit_Verify_checks w cfg be t0).
  assert (HPmid' : Forall is_check_event mid)
    by (eapply Forall_impl; [exact HPmid | intros ev [H _]; exact H]).
  rewrite Hmid.
  assert (Hshape : forall post,
    (((t0 ++ mid) ++ [EvBackendClose]) ++ post)%list
    = (tr ++ pre ++ EvBackendNew (Verify_beConfig w cfg) :: mid ++ EvBackendClose :: post)%list).
  { intros post. subst t0. rewrite <- !app_assoc. reflexivity. }
  destruct (fst (Verify_checks w cfg be t0)) as [[[e|] r]|v|c|]; try contradiction;
    match goal with
    | |- context [zap_log ?l ?lvl ?msg ?fs ?t] =>
        destruct (zap_log_trace is_log l lvl msg fs t (fun _ => I)) as (post & Hpost & HPpost)
    end;
    exists pre, mid, post; rewrite Hpost, Hshape; auto.
Qed.

Lemma Verify_closes_backend_witness :
  exists pre mid post,
    snd (Verify stale_backend_world (sample_config false) []) =
      (pre ++ EvBackendNew (Verify_beConfig stale_backend_world (sample_config false))
           :: mid ++ EvBackendClose :: post)%list /\
    Forall is_log pre /\ Forall is_check_event mid /\ Forall is_log post.
Proof.
  apply (Verify_closes_backend stale_backend_world (sample_config false) (sample_backend 10 2) []).
  reflexivity.
Defined.

Lemma Verify_checks_run_index w cfg be s h tr tr1 :
  fst (validateWal w cfg tr1) = Ret (s, h, None) ->
  Verify_checks w cfg be tr =
  match validateConsistentIndex cfg h s be (snd (validateWal w cfg tr)) with
  | (Ret r, t) => (Ret (None, r), t)
  | (Panic v, t) => (Panic v, t)
  | (Exit c, t) => (Exit c, t)
  | (Blocked, t) => (Blocked, t)
  end.
Proof.
  intros Hwal. unfold Verify_checks, bind.
  rewrite (oblivious_validateWal w cfg tr1 tr) in Hwal.
  destruct (validateWal w cfg tr) as [o t]. cbn [fst snd] in *. subst o.
  destruct (validateConsistentIndex cfg h s be t) as [[r|v|c|] t']; reflexivity.
Qed.

Lemma Verify_checks_run_wal_error w cfg be s h e tr tr1 :
  fst (validateWal w cfg tr1) = Ret (s, h, Some e) ->
  Verify_checks w cfg be tr = (Ret (Some e, Some e), snd (validateWal w cfg tr)).
Proof.
  intros Hwal. unfold Verify_checks, bind.
  rewrite (oblivious_validateWal w cfg tr1 tr) in Hwal.
  destruct (validateWal w cfg tr) as [o t]. cbn [fst snd] in *. subst o. reflexivity.
Qed.

(** X2: when the write-ahead log validation passes and the
    consistent-index validation returns an error, [Verify] returns that
    error, yet the record it writes last says that the verification was
    successful, and it writes no record at the Error level: the deferred
    report looks at the local variable err, which only the log validation
    assigns. *)
Theorem Verify_reports_success_on_index_error w cfg sink be s h e tr tr1 tr2 :
  Logger cfg = Some (NewLogger sink) ->
  backend_New w (Verify_beConfig w cfg) = Returns be ->
  fst (validateWal w cfg tr1) = Ret (s, h, None) ->
  fst (validateConsistentIndex cfg h s be tr2) = Ret (Some e) ->
  fst (Verify w cfg tr) = Ret (Some e) /\
  last (snd (Verify w cfg tr)) =
    Some (EvLog sink InfoLevel "verification of persisted state successful"
            [data_dir_field cfg]) /\
  exists evs, snd (Verify w cfg tr) = (tr ++ evs)%list /\ Forall is_quiet_event evs.
Proof.
  intros Hlg Hbe Hwal Hidx.
  assert (Hfst : forall t0, fst (Verify_checks w cfg be t0) = Ret (None, Some e)).
  { intros t0. rewrite (Verify_checks_index w cfg be s h t0 tr1 tr2 Hwal), Hidx. reflexivity. }
  split; [| split].
  - rewrite (Verify_opened w cfg be tr tr Hbe), Hfst. reflexivity.
  - rewrite (Verify_trace w cfg be tr Hbe). cbv zeta. rewrite Hlg, Hfst.
    unfold zap_Info, zap_log, emit, modify. cbn [snd]. apply last_snoc.
  - rewrite (Verify_trace w cfg be tr Hbe). cbv zeta. rewrite Hlg, Hfst.
    unfold zap_Info, zap_log, emit, modify. cbn [snd].
    match goal with |- context [Verify_checks w cfg be ?t] => set (t0 := t) end.
    destruct (emits_Verify_checks w cfg be t0) as (mid & Hmid & HPmid).
    rewrite Hmid. subst t0.
    eexists. rewrite <- !app_assoc. split; [reflexivity |].
    repeat (apply Forall_app; split); repeat constructor.
    eapply Forall_impl; [exact HPmid | intros ev [_ H]; exact H].
Qed.

Lemma Verify_reports_success_on_index_error_witness :
  fst (Verify stale_backend_world (sample_config false) []) =
    Ret (Some "backend.ConsistentIndex (10)必须是>= last snapshot index (11)") /\
  last (snd (Verify stale_backend_world (sample_config false) [])) =
    Some (EvLog "stderr" InfoLevel "verification of persisted state successful"
            [data_dir_field (sample_config false)]).
Proof.
  destruct (Verify_reports_success_on_index_error stale_backend_world (sample_config false)
              "stderr" (sample_backend 10 2) (Some (sample_snapshot 11))
              (Some (sample_hardstate 2 12))
              "backend.ConsistentIndex (10)必须是>= last snapshot index (11)" [] [] [])
    as (Hret & Hlast & _); try (vm_compute; reflexivity).
  split; assumption.
Defined.

(** X3: when the write-ahead log validation returns an error, [Verify]
    returns it, logs it at the Error level as its last record, and never
    reads the consistent index of the backend. *)
Theorem Verify_wal_error_skips_index w cfg sink be s h e tr tr1 :
  Logger cfg = Some (NewLogger sink) ->
  backend_New w (Verify_beConfig w cfg) = Returns be ->
  fst (validateWal w cfg tr1) = Ret (s, h, Some e) ->
  fst (Verify w cfg tr) = Ret (Some e) /\
  last (snd (Verify w cfg tr)) =
    Some (EvLog sink ErrorLevel "verification of persisted state failed"
            [data_dir_field cfg; zap_Error e]) /\
  exists evs, snd (Verify w cfg tr) = (tr ++ evs)%list /\ EvReadConsistentIndex ∉ evs.
Proof.
  intros Hlg Hbe Hwal.
  assert (Hrun : forall t0, Verify_checks w cfg be t0
                            = (Ret (Some e, Some e), snd (validateWal w cfg t0)))
    by (intros t0; apply (Verify_checks_run_wal_error w cfg be s h e t0 tr1 Hwal)).
  split; [| split].
  - rewrite (Verify_opened w cfg be tr tr Hbe), Hrun. reflexivity.
  - rewrite (Verify_trace w cfg be tr Hbe). cbv zeta. rewrite Hlg, !Hrun. cbn [fst snd].
    unfold zap_Error_, zap_log, emit, modify. cbn [snd]. apply last_snoc.
  - rewrite (Verify_trace w cfg be tr Hbe). cbv zeta. rewrite Hlg, !Hrun. cbn [fst snd].
    unfold zap_Info, zap_Error_, zap_log, emit, modify. cbn [snd].
    match goal with |- context [validateWal w cfg ?t] =>
      destruct (emits_validateWal w cfg t) as (mid & Hmid & HPmid); rewrite Hmid
    end.
    eexists. rewrite <- !app_assoc. split; [reflexivity |].
    rewrite !elem_of_app, !elem_of_cons, elem_of_nil.
    intros H. rewrite Forall_forall in HPmid.
    repeat match goal with
           | H : _ \/ _ |- _ => destruct H as [H|H]
           end;
      try discriminate; try contradiction; exact (HPmid _ H).
Qed.

Lemma Verify_wal_error_skips_index_witness :
  fst (Verify unreadable_wal_world (sample_config false) []) = Ret (Some "wal: file not found") /\
  exists evs, snd (Verify unreadable_wal_world (sample_config false) []) = evs /\
              EvReadConsistentIndex ∉ evs.
Proof.
  destruct (Verify_wal_error_skips_index unreadable_wal_world (sample_config false) "stderr"
              (sample_backend 0 0) None None "wal: file not found" [] [])
    as (Hret & _ & evs & Hevs & Hnot); try reflexivity.
  split; [exact Hret |]. exists evs. split; assumption.
Defined.

(** ** A nil logger *)

Lemma validateConsistentIndex_nil_logger cfg h s be tr :
  Logger cfg = None -> fst (validateConsistentIndex cfg h s be tr) <> Ret None.
Proof.
  intros Hlg. unfold validateConsistentIndex, zap_Info, zap_log. rewrite Hlg.
  unfold bind, deref, ret, emit, modify, panic.
  destruct h as [hs|], s as [snap|]; destruct (ExactIndex cfg); cbn [fst negb];
    repeat match goal with
           | |- context [if ?b then _ else _] => destruct b; cbn [fst negb]
           end; discriminate.
Qed.

Lemma validateConsistentIndex_nil_logger_run cfg hs snap be tr :
  Logger cfg = None ->
  first_violated (invariants_in_order (ExactIndex cfg) (consistent_index be)
    (consistent_term be) (HardState_Commit hs) (HardState_Term hs) (Snapshot_Index snap)) = None ->
  fst (validateConsistentIndex cfg (Some hs) (Some snap) be tr) =
  Panic "runtime error: invalid memory address or nil pointer dereference".
Proof.
  intros Hlg. unfold validateConsistentIndex, invariants_in_order, zap_Info, zap_log.
  rewrite Hlg. cbn [first_violated]. rewrite !N.leb_antisym.
  unfold bind, deref, ret, emit, modify, panic.
  destruct (ExactIndex cfg); cbn [implb negb fst];
    destruct (consistent_index be =? HardState_Commit hs)%N;
    destruct (consistent_term be =? HardState_Term hs)%N;
    cbn [negb fst];
    destruct (HardState_Commit hs <? consistent_index be)%N;
    destruct (HardState_Term hs <? consistent_term be)%N;
    destruct (consistent_index be <? Snapshot_Index snap)%N;
    cbn [negb fst]; try discriminate; reflexivity.
Qed.

(** X4: [Verify] accepts a nil Logger, but the consistent-index validation
    logs its success through cfg.Logger itself: with a nil Logger [Verify]
    never returns nil, and on a directory where every invariant holds it
    panics with a nil dereference instead of reporting success. *)
Theorem Verify_nil_logger_never_succeeds w cfg tr :
  Logger cfg = None ->
  fst (Verify w cfg tr) <> Ret None /\
  (forall be hs snap tr1,
      backend_New w (Verify_beConfig w cfg) = Returns be ->
      fst (validateWal w cfg tr1) = Ret (Some snap, Some hs, None) ->
      first_violated (invariants_in_order (ExactIndex cfg) (consistent_index be)
        (consistent_term be) (HardState_Commit hs) (HardState_Term hs) (Snapshot_Index snap))
      = None ->
      fst (Verify w cfg tr) =
      Panic "runtime error: invalid memory address or nil pointer dereference").
Proof.
  intros Hlg. split.
  - destruct (backend_New w (Verify_beConfig w cfg)) as [be|v] eqn:Hbe.
    + rewrite (Verify_opened w cfg be tr tr Hbe). unfold Verify_checks, bind.
      destruct (validateWal w cfg tr) as [[[[s h] [e|]]|v|c|] t]; cbn [fst Verify_result];
        try discriminate.
      assert (Hnil := validateConsistentIndex_nil_logger cfg h s be t Hlg).
      destruct (validateConsistentIndex cfg h s be t) as [[[e|]|v|c|] t']; cbn [fst] in *;
        try discriminate. contradiction.
    + rewrite (Verify_not_opened w cfg v tr Hbe). discriminate.
  - intros be hs snap tr1 Hbe Hwal Hok.
    rewrite (Verify_opened w cfg be tr tr Hbe).
    rewrite (Verify_checks_index w cfg be _ _ tr tr1 tr Hwal).
    rewrite (validateConsistentIndex_nil_logger_run cfg hs snap be tr Hlg Hok). reflexivity.
Qed.

Lemma Verify_nil_logger_never_succeeds_witness :
  let w := sample_world [sample_snapshot 5] (sample_hardstate 2 10) (sample_backend 10 2) in
  let cfg := {| DataDir := "/var/lib/etcd"; ExactIndex := false; Logger := None |} in
  fst (Verify w cfg []) =
  Panic "runtime error: invalid memory address or nil pointer dereference".
Proof.
  intros w cfg.
  destruct (Verify_nil_logger_never_succeeds w cfg [] eq_refl) as [_ Hpanic].
  apply (Hpanic (sample_backend 10 2) (sample_hardstate 2 10) (sample_snapshot 5) []);
    reflexivity.
Defined.

(** ** Exact mode *)

(** X5: exact mode is the stricter of the two: a backend and a log that the
    consistent-index validation accepts with ExactIndex set are accepted
    without it as well; and with ExactIndex set an accepted backend has
    exactly the commit index and the term of the hard state. *)
Theorem exact_mode_is_stricter cfg cfg' lg' hs snap be tr tr' :
  ExactIndex cfg = true -> ExactIndex cfg' = false -> Logger cfg' = Some lg' ->
  fst (validateConsistentIndex cfg (Some hs) (Some snap) be tr) = Ret None ->
  fst (validateConsistentIndex cfg' (Some hs) (Some snap) be tr') = Ret None /\
  consistent_index be = HardState_Commit hs /\ consistent_term be = HardState_Term hs.
Proof.
  intros Hex Hex' Hlg' Hok.
  destruct (Logger cfg) as [lg|] eqn:Hlg;
    [| exfalso; exact (validateConsistentIndex_nil_logger cfg _ _ be tr Hlg Hok)].
  rewrite (validateConsistentIndex_run cfg lg hs snap be tr Hlg) in Hok.
  injection Hok as Hok. apply first_violated_None in Hok. destruct Hok as (HS & HT & Hexact).
  rewrite Hex in Hexact. destruct (Hexact eq_refl) as [HI HTe].
  split; [| split; assumption].
  rewrite (validateConsistentIndex_run cfg' lg' hs snap be tr' Hlg'). f_equal.
  apply first_violated_None. rewrite Hex'. repeat split; try tauto; discriminate.
Qed.

Lemma exact_mode_is_stricter_witness :
  fst (validateConsistentIndex (sample_config false) (Some (sample_hardstate 2 10))
         (Some (sample_snapshot 5)) (sample_backend 10 2) []) = Ret None.
Proof.
  apply (exact_mode_is_stricter (sample_config true) (sample_config false) (NewLogger "stderr")
           (sample_hardstate 2 10) (sample_snapshot 5) (sample_backend 10 2) [] []);
    reflexivity.
Defined.

(** ** The reference snapshot *)

Lemma slice_index_last {S A} (l : list A) (x : A) (s : S) :
  slice_index (l ++ [x]) (Z.of_nat (length (l ++ [x])) - 1) s = (Ret x, s).
Proof.
  unfold slice_index. rewrite length_app. cbn [length].
  replace (Z.of_nat (length l + 1) - 1)%Z with (Z.of_nat (length l)) by lia.
  rewrite bool_decide_true by lia. rewrite Nat2Z.id.
  rewrite list_lookup_middle by reflexivity. reflexivity.
Qed.

(** X6: the snapshot against which the log is verified, and which
    [validateWal] returns, is the one that comes last in the list of valid
    snapshot entries, whatever the indices of the entries; the log is read
    twice, once for the entries and once for the hard state. *)
Theorem validateWal_uses_last_snapshot w cfg snaps snap hs tr :
  ValidSnapshotEntries w (Logger cfg) (ToWalDir w (DataDir cfg))
    = Returns ((snaps ++ [snap])%list, None) ->
  wal_Verify w (Logger cfg) (ToWalDir w (DataDir cfg)) snap = Returns (hs, None) ->
  validateWal w cfg tr =
  (Ret (Some snap, hs, None),
   (tr ++ [EvValidSnapshotEntries (ToWalDir w (DataDir cfg));
           EvWalVerify (ToWalDir w (DataDir cfg)) snap])%list).
Proof.
  intros Hsnaps Hver. unfold validateWal, bind, call. rewrite Hsnaps.
  rewrite slice_index_last. rewrite Hver. rewrite <- app_assoc. reflexivity.
Qed.

Lemma validateWal_uses_last_snapshot_witness :
  fst (validateWal (sample_world [sample_snapshot 9; sample_snapshot 3] (sample_hardstate 2 10)
                      (sample_backend 10 2)) (sample_config false) [])
  = Ret (Some (sample_snapshot 3), Some (sample_hardstate 2 10), None).
Proof.
  rewrite (validateWal_uses_last_snapshot
             (sample_world [sample_snapshot 9; sample_snapshot 3] (sample_hardstate 2 10)
                (sample_backend 10 2)) (sample_config false)
             [sample_snapshot 9] (sample_snapshot 3) (Some (sample_hardstate 2 10)) []);
    reflexivity.
Defined.

End verify_extra.

(** * Further properties of package etcdserver *)

Module etcdserver_extra.
Import etcdserver etcdserver_more etcdserver_spec.

Section server.

Variables (Store IDGen : Type).
Variable Marshal : RequestV2 -> list Byte.byte * option error.
Variable idutil_Next : IDGen -> N * IDGen.
Variable parseProposeCtxErr : World Store IDGen -> option ctx_error -> N -> error.

Local Abbreviation World := (World Store IDGen).
Local Abbreviation Register := (Register Store IDGen).
Local Abbreviation Trigger := (Trigger Store IDGen).
Local Abbreviation env_step := (env_step Store IDGen).
Local Abbreviation env_run := (env_run Store IDGen).
Local Abbreviation ready_cases := (ready_cases Store IDGen).
Local Abbreviation select := (select Store IDGen).
Local Abbreviation suspended := (suspended Store IDGen).
Local Abbreviation wake := (wake Store IDGen).
Local Abbreviation at_wake := (at_wake Store IDGen).
Local Abbreviation processRaftRequest :=
  (processRaftRequest Store IDGen Marshal parseProposeCtxErr).
Local Abbreviation server_handler :=
  (reqV2HandlerEtcdServer_handler Store IDGen Marshal parseProposeCtxErr).
Local Abbreviation Handle_server :=
  (@Handle Store IDGen (reqV2HandlerEtcdServer Store) server_handler).
Local Abbreviation Handle_store :=
  (@Handle Store IDGen (reqV2HandlerStore Store) (reqV2HandlerStore_handler Store IDGen)).
Local Abbreviation Do := (Do Store IDGen Marshal idutil_Next parseProposeCtxErr).

Implicit Types (σ : World) (id : N) (ch : nat) (x : iface) (r : RequestV2) (ctx : Context).

(** ** What the other goroutines leave alone *)

Lemma env_step_frame a σ :
  proposed (env_step a σ) = proposed σ /\ idgen_st (env_step a σ) = idgen_st σ /\
  store_st (env_step a σ) = store_st σ /\ pick (env_step a σ) = pick σ /\
  stdout (env_step a σ) = stdout σ.
Proof.
  destruct a as [id x|c e| |dt|t c]; cbn [etcdserver.env_step].
  - unfold etcdserver.Trigger. destruct (w σ !! id); world_simpl; repeat split.
  - destruct (ctx_done σ !! c); world_simpl; repeat split.
  - world_simpl; repeat split.
  - world_simpl; repeat split.
  - world_simpl; repeat split.
Qed.

Lemma env_run_frame l σ :
  proposed (env_run l σ) = proposed σ /\ idgen_st (env_run l σ) = idgen_st σ /\
  store_st (env_run l σ) = store_st σ /\ pick (env_run l σ) = pick σ /\
  stdout (env_run l σ) = stdout σ.
Proof.
  revert σ. induction l as [|a l IH]; intros σ; [repeat split |].
  rewrite (env_run_cons Store IDGen).
  destruct (IH (env_step a σ)) as (H1 & H2 & H3 & H4 & H5).
  destruct (env_step_frame a σ) as (G1 & G2 & G3 & G4 & G5).
  repeat split; congruence.
Qed.

Lemma env_run_app l1 l2 σ : env_run (l1 ++ l2) σ = env_run l2 (env_run l1 σ).
Proof. unfold etcdserver.env_run. apply foldl_app. Qed.

Lemma env_step_quiet id ctx a σ :
  quiet_for id ctx a ->
  w (env_step a σ) !! id = w σ !! id /\
  ctx_done (env_step a σ) !! ctx = ctx_done σ !! ctx /\
  stopping (env_step a σ) = stopping σ.
Proof.
  destruct a as [id' x|c e| |dt|t c]; cbn [etcdserver.env_step quiet_for]; intros Hq.
  - unfold etcdserver.Trigger. destruct (w σ !! id'); world_simpl; repeat split.
    apply lookup_delete_ne, Hq.
  - destruct (ctx_done σ !! c); world_simpl; repeat split.
    apply lookup_insert_ne, Hq.
  - contradiction.
  - world_simpl; repeat split.
  - world_simpl; repeat split.
Qed.

Lemma env_run_quiet id ctx l σ :
  Forall (quiet_for id ctx) l ->
  w (env_run l σ) !! id = w σ !! id /\
  ctx_done (env_run l σ) !! ctx = ctx_done σ !! ctx /\
  stopping (env_run l σ) = stopping σ.
Proof.
  intros Hq. revert σ. induction Hq as [|a l Ha Hl IH]; intros σ; [repeat split |].
  rewrite (env_run_cons Store IDGen).
  destruct (IH (env_step a σ)) as (H1 & H2 & H3).
  destruct (env_step_quiet id ctx a σ Ha) as (G1 & G2 & G3).
  repeat split; congruence.
Qed.

Lemma env_run_quiet_pending id ctx ch l σ :
  Forall (quiet_for id ctx) l -> slot_pending id ch σ -> slot_pending id ch (env_run l σ).
Proof.
  intros Hq Hp.
  destruct (env_run_pending Store IDGen id ch l σ Hp) as [Hp'|[[Hnone _] _]]; [exact Hp' |].
  destruct (env_run_quiet id ctx l σ Hq) as (Hw & _). destruct Hp as (Hid & _). congruence.
Qed.

Lemma env_run_done_sticky ctx e l σ :
  ctx_done σ !! ctx = Some e -> ctx_done (env_run l σ) !! ctx = Some e.
Proof.
  revert σ. induction l as [|a l IH]; intros σ He; [exact He |].
  rewrite (env_run_cons Store IDGen). apply IH.
  destruct a as [id x|c e'| |dt|t c]; cbn [etcdserver.env_step].
  - destruct (Trigger_frame Store IDGen id x σ) as (_ & _ & Hc & _). cbv zeta in Hc.
    rewrite Hc. exact He.
  - destruct (ctx_done σ !! c) eqn:Hc; [exact He |]. world_simpl.
    rewrite lookup_insert_ne; [exact He | congruence].
  - exact He.
  - exact He.
  - exact He.
Qed.

(** ** The state in which the caller suspends *)

Lemma suspended_fields ctx r data σ :
  w σ !! ID r = None ->
  let σs := suspended ctx r data σ in
  proposed σs = (proposed σ ++ [data])%list /\ sched σs = sched σ /\ pick σs = pick σ /\
  ctx_done σs = ctx_done σ /\ stopping σs = stopping σ /\ idgen_st σs = idgen_st σ /\
  now σs = now σ /\ store_st σs = store_st σ.
Proof.
  intros Hfresh. unfold etcdserver.suspended. rewrite (Register_fresh Store IDGen _ _ Hfresh).
  unfold etcdserver.Propose, modify. world_simpl. repeat split.
Qed.

Lemma ready_cases_eq ctx ch σ buf :
  chans σ !! ch = Some buf ->
  ready_cases ctx ch σ =
  (match buf with x :: _ => [RecvCh x] | [] => [] end ++
   (if ctx_done σ !! ctx is Some _ then [RecvDone] else []) ++
   (if stopping σ then [RecvStopping] else []))%list.
Proof. intros H. unfold etcdserver.ready_cases. rewrite H. reflexivity. Qed.

Lemma wake_unfold ctx r data σ :
  wake ctx r data σ =
  match ready_cases ctx (length (chans σ)) (at_wake ctx r data σ)
        !! (pick (at_wake ctx r data σ) `mod`
            length (ready_cases ctx (length (chans σ)) (at_wake ctx r data σ)))%nat with
  | Some (RecvCh x) =>
      (Ret (RecvCh x),
       upd_chans Store IDGen (fun c => alter (drop 1) (length (chans σ)) c) (at_wake ctx r data σ))
  | Some c => (Ret c, at_wake ctx r data σ)
  | None => (Blocked, at_wake ctx r data σ)
  end.
Proof. reflexivity. Qed.

Lemma at_wake_unfold ctx r data σ :
  w σ !! ID r = None ->
  at_wake ctx r data σ
  = env_run (sched σ) (upd_sched Store IDGen (fun _ => []) (suspended ctx r data σ)).
Proof.
  intros Hfresh. unfold etcdserver.at_wake.
  destruct (suspended_fields ctx r data σ Hfresh) as (_ & Hs & _). cbv zeta in Hs.
  rewrite Hs. reflexivity.
Qed.

(** X7: a caller has no timeout of its own: as long as nobody triggers its
    id, its context is not done and the server is not stopping, whatever
    else happens (time passing, raft progress, other requests completing),
    it stays suspended, with its slot in the table and its command
    proposed. *)
Theorem processRaftRequest_waits_without_events a ctx r data σ :
  table_wf σ -> Marshal r = (data, None) -> w σ !! ID r = None ->
  ctx_done σ !! ctx = None -> stopping σ = false ->
  Forall (quiet_for (ID r) ctx) (sched σ) ->
  fst (processRaftRequest a ctx r σ) = Blocked /\
  w (snd (processRaftRequest a ctx r σ)) !! ID r = Some (length (chans σ)) /\
  proposed (snd (processRaftRequest a ctx r σ)) = (proposed σ ++ [data])%list.
Proof.
  intros Hwf HM Hfresh Hctx Hstop Hq.
  rewrite (processRaftRequest_run Store IDGen Marshal parseProposeCtxErr a ctx r data σ HM Hfresh).
  rewrite wake_unfold. rewrite (at_wake_unfold ctx r data σ Hfresh).
  destruct (suspended_fields ctx r data σ Hfresh) as (Hprop & _ & _ & Hc & Hs & _).
  cbv zeta in *.
  set (σs := upd_sched Store IDGen (fun _ => []) (suspended ctx r data σ)).
  assert (Hp : slot_pending (ID r) (length (chans σ)) σs)
    by exact (suspended_pending Store IDGen ctx r data σ Hwf Hfresh).
  apply (env_run_quiet_pending _ ctx _ _ _ Hq) in Hp.
  destruct (env_run_quiet (ID r) ctx (sched σ) σs Hq) as (_ & Hc' & Hs').
  destruct (env_run_frame (sched σ) σs) as (Hprop' & _).
  destruct Hp as (Hid & Hbuf & _).
  rewrite (ready_cases_eq _ _ _ _ Hbuf), Hc', Hs'.
  change (ctx_done σs) with (ctx_done (suspended ctx r data σ)).
  change (stopping σs) with (stopping (suspended ctx r data σ)).
  rewrite Hc, Hs, Hctx, Hstop. cbn [app lookup list_lookup fst snd].
  rewrite lookup_nil. cbn [fst snd].
  split; [reflexivity |]. split; [exact Hid |]. rewrite Hprop'. exact Hprop.
Qed.

Lemma deliver_run id ctx ch x l1 l2 σ :
  slot_pending id ch σ -> ctx_done σ !! ctx = None -> stopping σ = false ->
  Forall (quiet_for id ctx) l1 -> Forall (quiet_for id ctx) l2 ->
  let σ' := env_run (l1 ++ EnvTrigger id x :: l2) σ in
  slot_retired id ch σ' /\ chans σ' !! ch = Some [x] /\
  ctx_done σ' !! ctx = None /\ stopping σ' = false.
Proof.
  intros Hp Hctx Hstop Hq1 Hq2 σ'. subst σ'.
  rewrite env_run_app, (env_run_cons Store IDGen).
  apply (env_run_quiet_pending _ ctx _ _ _ Hq1) in Hp.
  destruct (env_run_quiet id ctx l1 σ Hq1) as (_ & Hc1 & Hs1).
  set (σ1 := env_run l1 σ) in *.
  assert (Hret : slot_retired id ch (env_step (EnvTrigger id x) σ1)).
  { destruct (env_step_pending Store IDGen id ch (EnvTrigger id x) σ1 Hp) as [(Hid & _)|[Hret _]];
      [| exact Hret].
    exfalso. cbn [etcdserver.env_step] in Hid.
    rewrite (Trigger_removes Store IDGen) in Hid. discriminate. }
  assert (Hbuf : chans (env_step (EnvTrigger id x) σ1) !! ch = Some [x]).
  { destruct Hp as (Hid & Hb & _). cbn [etcdserver.env_step]. unfold etcdserver.Trigger.
    rewrite Hid. world_simpl. rewrite list_lookup_alter_eq, Hb. reflexivity. }
  destruct (Trigger_frame Store IDGen id x σ1) as (_ & Hs2 & Hc2 & _). cbv zeta in Hs2, Hc2.
  destruct (env_run_retired Store IDGen id ch l2 _ Hret) as [Hret' Hbuf'].
  destruct (env_run_quiet id ctx l2 (env_step (EnvTrigger id x) σ1) Hq2) as (_ & Hc3 & Hs3).
  split; [exact Hret' |]. split; [congruence |].
  cbn [etcdserver.env_step] in *. split; congruence.
Qed.

(** X8: if, while a caller waits, its id is triggered and nothing else can
    wake it, the caller receives exactly the value given to the trigger,
    whatever the choice of the [select]: a Response is returned with its Err
    field, any other value makes the type assertion panic; in both cases the
    slot has left the table and the channel is empty. *)
Theorem delivery_wakes_caller a ctx r data σ l1 x l2 :
  table_wf σ -> Marshal r = (data, None) -> w σ !! ID r = None ->
  ctx_done σ !! ctx = None -> stopping σ = false ->
  sched σ = (l1 ++ EnvTrigger (ID r) x :: l2)%list ->
  Forall (quiet_for (ID r) ctx) l1 -> Forall (quiet_for (ID r) ctx) l2 ->
  fst (processRaftRequest a ctx r σ) =
    match x with
    | IResponse resp => Ret (resp, Err resp)
    | _ => Panic (conversion_panic x)
    end /\
  w (snd (processRaftRequest a ctx r σ)) !! ID r = None /\
  chans (snd (processRaftRequest a ctx r σ)) !! length (chans σ) = Some [].
Proof.
  intros Hwf HM Hfresh Hctx Hstop Hsched Hq1 Hq2.
  rewrite (processRaftRequest_run Store IDGen Marshal parseProposeCtxErr a ctx r data σ HM Hfresh).
  rewrite wake_unfold. rewrite (at_wake_unfold ctx r data σ Hfresh), Hsched.
  destruct (suspended_fields ctx r data σ Hfresh) as (_ & _ & _ & Hc & Hs & _).
  cbv zeta in *.
  set (σs := upd_sched Store IDGen (fun _ => []) (suspended ctx r data σ)).
  assert (Hp : slot_pending (ID r) (length (chans σ)) σs)
    by exact (suspended_pending Store IDGen ctx r data σ Hwf Hfresh).
  assert (Hcs : ctx_done σs !! ctx = None) by (change (ctx_done σs) with
    (ctx_done (suspended ctx r data σ)); congruence).
  assert (Hss : stopping σs = false) by (change (stopping σs) with
    (stopping (suspended ctx r data σ)); congruence).
  destruct (deliver_run (ID r) ctx _ x l1 l2 σs Hp Hcs Hss Hq1 Hq2)
    as ((Hnone & _) & Hbuf & Hc' & Hs').
  rewrite (ready_cases_eq _ _ _ _ Hbuf), Hc', Hs'. cbn [app length].
  rewrite Nat.mod_1_r. cbn [lookup list_lookup].
  destruct x as [|resp|t]; cbn [fst snd conversion_panic]; world_simpl;
    (split; [reflexivity |]; split; [exact Hnone |];
     rewrite list_lookup_alter_eq, Hbuf; reflexivity).
Qed.

(** X9: a delivery and the end of the context may both have happened when
    the caller wakes up, and the [select] may take either: when it takes the
    end of the context, the caller returns the error of the context although
    its command was applied, and the Response stays in the channel, which
    nobody reads any more. *)
Theorem cancellation_can_win_over_delivery a ctx r data σ l1 resp l2 e l3 :
  table_wf σ -> Marshal r = (data, None) -> w σ !! ID r = None ->
  ctx_done σ !! ctx = None -> stopping σ = false ->
  sched σ = (l1 ++ EnvTrigger (ID r) (IResponse resp) :: l2 ++ EnvCancel ctx e :: l3)%list ->
  Forall (quiet_for (ID r) ctx) l1 -> Forall (quiet_for (ID r) ctx) l2 ->
  Forall (quiet_for (ID r) ctx) l3 ->
  (pick σ `mod` 2 = 0 -> fst (processRaftRequest a ctx r σ) = Ret (resp, Err resp))%nat /\
  (pick σ `mod` 2 = 1 ->
   fst (processRaftRequest a ctx r σ) =
     Ret (Response_zero,
          Some (parseProposeCtxErr (snd (processRaftRequest a ctx r σ)) (Some e) (now σ))) /\
   chans (snd (processRaftRequest a ctx r σ)) !! length (chans σ) = Some [IResponse resp] /\
   w (snd (processRaftRequest a ctx r σ)) !! ID r = None)%nat.
Proof.
  intros Hwf HM Hfresh Hctx Hstop Hsched Hq1 Hq2 Hq3.
  rewrite (processRaftRequest_run Store IDGen Marshal parseProposeCtxErr a ctx r data σ HM Hfresh).
  rewrite wake_unfold. rewrite (at_wake_unfold ctx r data σ Hfresh), Hsched.
  destruct (suspended_fields ctx r data σ Hfresh) as (_ & _ & Hpick & Hc & Hs & _).
  cbv zeta in *.
  set (σs := upd_sched Store IDGen (fun _ => []) (suspended ctx r data σ)).
  assert (Hp : slot_pending (ID r) (length (chans σ)) σs)
    by exact (suspended_pending Store IDGen ctx r data σ Hwf Hfresh).
  assert (Hcs : ctx_done σs !! ctx = None) by (change (ctx_done σs) with
    (ctx_done (suspended ctx r data σ)); congruence).
  assert (Hss : stopping σs = false) by (change (stopping σs) with
    (stopping (suspended ctx r data σ)); congruence).
  replace (l1 ++ EnvTrigger (ID r) (IResponse resp) :: l2 ++ EnvCancel ctx e :: l3)%list
    with ((l1 ++ EnvTrigger (ID r) (IResponse resp) :: l2) ++ EnvCancel ctx e :: l3)%list
    by (rewrite <- app_assoc; reflexivity).
  rewrite env_run_app, (env_run_cons Store IDGen).
  destruct (deliver_run (ID r) ctx _ (IResponse resp) l1 l2 σs Hp Hcs Hss Hq1 Hq2)
    as (Hret & Hbuf & Hc' & Hs').
  set (σd := env_run (l1 ++ EnvTrigger (ID r) (IResponse resp) :: l2) σs) in *.
  destruct (env_step_retired Store IDGen (ID r) _ (EnvCancel ctx e) σd Hret) as [Hret1 Hbuf1].
  assert (Hc1 : ctx_done (env_step (EnvCancel ctx e) σd) !! ctx = Some e).
  { cbn [etcdserver.env_step]. rewrite Hc'. world_simpl. apply lookup_insert_eq. }
  assert (Hs1 : stopping (env_step (EnvCancel ctx e) σd) = false).
  { cbn [etcdserver.env_step]. rewrite Hc'. world_simpl. exact Hs'. }
  set (σc := env_step (EnvCancel ctx e) σd) in *.
  destruct (env_run_retired Store IDGen (ID r) _ l3 σc Hret1) as [[Hnone Hnoch] Hbuf3].
  assert (Hc3 := env_run_done_sticky ctx e l3 σc Hc1).
  destruct (env_run_quiet (ID r) ctx l3 σc Hq3) as (_ & _ & Hs3).
  destruct (env_run_frame l3 σc) as (_ & _ & _ & Hp3 & _).
  destruct (env_step_frame (EnvCancel ctx e) σd) as (_ & _ & _ & Hp2 & _).
  destruct (env_run_frame (l1 ++ EnvTrigger (ID r) (IResponse resp) :: l2) σs)
    as (_ & _ & _ & Hp1 & _).
  set (σw := env_run l3 σc) in *.
  assert (Hpickw : pick σw = pick σ).
  { rewrite Hp3. fold σc. unfold σc at 1. rewrite Hp2. fold σd. unfold σd at 1. rewrite Hp1.
    exact Hpick. }
  assert (Hbufw : chans σw !! length (chans σ) = Some [IResponse resp]) by congruence.
  rewrite (ready_cases_eq _ _ _ _ Hbufw), Hc3, Hs3, Hs1. cbn [app length]. rewrite Hpickw.
  split; intros Hpk; rewrite Hpk; cbn [lookup list_lookup fst snd].
  - reflexivity.
  - rewrite (Trigger_absent Store IDGen _ INil σw Hnone). cbn [snd]. rewrite Hc3.
    repeat split; assumption.
Qed.

(** ** The handler on a store *)

Lemma upd_store_st_id σ : upd_store_st Store IDGen (fun _ => store_st σ) σ = σ.
Proof. destruct σ. reflexivity. Qed.

(** X10: with the handler made by [NewStoreRequestV2Handler] every request
    is served on the spot: [Handle] returns, and it changes nothing but the
    state of the store, so that no slot is registered and nothing is
    proposed, also for POST, PUT, DELETE and QGET, for which the error is
    always nil. *)
Theorem store_handler_is_local (h : reqV2HandlerStore Store) r ctx σ :
  exists r' resp err st,
    Handle_store r ctx h σ = (Ret (r', (resp, err)), upd_store_st Store IDGen (fun _ => st) σ) /\
    (Method r' ∈ consensus_methods -> err = None).
Proof.
  unfold etcdserver.Handle.
  set (r' := if String.eqb (Method r) "GET" && Quorum r then set_Method "QGET" r else r).
  unfold bind.
  destruct (String.eqb_spec (Method r') "POST") as [HP|HP].
  { cbn [Post etcdserver.reqV2HandlerStore_handler].
    unfold etcdserver.reqV2HandlerStore_Post, bind, on_store, ret.
    destruct (applier_Post Store (applier Store h) r' (store_st σ)) as [resp st].
    exists r', resp, None, st. split; reflexivity. }
  destruct (String.eqb_spec (Method r') "PUT") as [HU|HU].
  { cbn [Put etcdserver.reqV2HandlerStore_handler].
    unfold etcdserver.reqV2HandlerStore_Put, bind, on_store, ret.
    destruct (applier_Put Store (applier Store h) r' ApplyBoth (store_st σ)) as [resp st].
    exists r', resp, None, st. split; reflexivity. }
  destruct (String.eqb_spec (Method r') "DELETE") as [HD|HD].
  { cbn [Delete etcdserver.reqV2HandlerStore_handler].
    unfold etcdserver.reqV2HandlerStore_Delete, bind, on_store, ret.
    destruct (applier_Delete Store (applier Store h) r' (store_st σ)) as [resp st].
    exists r', resp, None, st. split; reflexivity. }
  destruct (String.eqb_spec (Method r') "QGET") as [HQ|HQ].
  { cbn [QGet etcdserver.reqV2HandlerStore_handler].
    unfold etcdserver.reqV2HandlerStore_QGet, bind, on_store, ret.
    destruct (applier_QGet Store (applier Store h) r' (store_st σ)) as [resp st].
    exists r', resp, None, st. split; reflexivity. }
  assert (Hnot : Method r' ∉ consensus_methods).
  { unfold consensus_methods. rewrite !not_elem_of_cons. repeat split; try assumption.
    apply not_elem_of_nil. }
  destruct (String.eqb_spec (Method r') "GET") as [HG|HG].
  { cbn [Get etcdserver.reqV2HandlerStore_handler].
    unfold etcdserver.reqV2HandlerStore_Get, bind, on_store, ret.
    destruct (Wait r').
    - destruct (store_Watch Store (store Store h) (Path r') (Recursive r') (Stream r') (Since r')
                  (store_st σ)) as [[wc err] st].
      eexists r', _, err, st. split; [reflexivity | intros; contradiction].
    - destruct (store_Get Store (store Store h) (Path r') (Recursive r') (Sorted r')
                  (store_st σ)) as [[ev err] st].
      eexists r', _, err, st. split; [reflexivity | intros; contradiction]. }
  destruct (String.eqb_spec (Method r') "HEAD") as [HH|HH].
  { cbn [Head etcdserver.reqV2HandlerStore_handler].
    unfold etcdserver.reqV2HandlerStore_Head, bind, on_store, ret.
    destruct (store_Get Store (store Store h) (Path r') (Recursive r') (Sorted r')
                (store_st σ)) as [[ev err] st].
    eexists r', _, err, st. split; [reflexivity | intros; contradiction]. }
  exists r', Response_zero, (Some ErrUnknownMethod), (store_st σ).
  unfold ret. rewrite upd_store_st_id. split; [reflexivity | intros; contradiction].
Qed.

(** ** The kind of a request *)

(** X11: a GET that asks for a quorum is handled exactly as the same
    request with Method QGET, by every handler; and the request that
    [Handle] leaves behind is handled like the request it was given. *)
Theorem quorum_get_is_qget {H} {handler : RequestV2Handler Store IDGen H} r ctx (v2api : H) σ :
  (Method r = "GET" -> Quorum r = true ->
   Handle Store IDGen r ctx v2api σ = Handle Store IDGen (set_Method "QGET" r) ctx v2api σ) /\
  (forall r' res σ',
      Handle Store IDGen r ctx v2api σ = (Ret (r', res), σ') ->
      Handle Store IDGen r' ctx v2api σ = Handle Store IDGen r ctx v2api σ).
Proof.
  assert (Hq : Method r = "GET" -> Quorum r = true ->
    Handle Store IDGen r ctx v2api σ = Handle Store IDGen (set_Method "QGET" r) ctx v2api σ).
  { intros HG HQ. rewrite (Handle_quorum_get Store IDGen r ctx v2api σ HG HQ).
    rewrite (Handle_other_kind Store IDGen (set_Method "QGET" r) ctx v2api σ)
      by (left; discriminate).
    reflexivity. }
  split; [exact Hq |].
  intros r' res σ' Hrun.
  destruct (String.eqb_spec (Method r) "GET") as [HG|HG]; [destruct (Quorum r) eqn:HQ |].
  - rewrite (Handle_quorum_get Store IDGen r ctx v2api σ HG HQ) in Hrun.
    unfold bind, ret in Hrun.
    destruct (QGet Store IDGen v2api ctx (set_Method "QGET" r) σ) as [[o| | |] t];
      try discriminate.
    injection Hrun as <- _ _. symmetry. apply Hq; auto.
  - rewrite (Handle_other_kind Store IDGen r ctx v2api σ) in Hrun by (right; exact HQ).
    unfold bind, ret in Hrun.
    match type of Hrun with
    | context [if ?b then ?m else _] => destruct ((if b then m else _) σ) as [[o| | |] t]
    end; try discriminate.
    injection Hrun as <- _ _. reflexivity.
  - rewrite (Handle_other_kind Store IDGen r ctx v2api σ) in Hrun by (left; exact HG).
    unfold bind, ret in Hrun.
    match type of Hrun with
    | context [if ?b then ?m else _] => destruct ((if b then m else _) σ) as [[o| | |] t]
    end; try discriminate.
    injection Hrun as <- _ _. reflexivity.
Qed.

(** ** Request ids *)

Lemma processRaftRequest_idgen a ctx r σ :
  idgen_st (snd (processRaftRequest a ctx r σ)) = idgen_st σ.
Proof.
  destruct (Marshal r) as [data [e|]] eqn:HM.
  { unfold etcdserver.processRaftRequest. rewrite HM. reflexivity. }
  destruct (w σ !! ID r) as [c|] eqn:Hreg.
  { unfold etcdserver.processRaftRequest, bind, etcdserver.Register. rewrite HM, Hreg.
    reflexivity. }
  rewrite (processRaftRequest_run Store IDGen Marshal parseProposeCtxErr a ctx r data σ HM Hreg).
  rewrite wake_unfold.
  assert (Hw : idgen_st (at_wake ctx r data σ) = idgen_st σ).
  { unfold etcdserver.at_wake.
    destruct (env_run_frame (sched (suspended ctx r data σ))
                (upd_sched Store IDGen (fun _ => []) (suspended ctx r data σ))) as (_ & Hi & _).
    rewrite Hi. apply (suspended_fields ctx r data σ Hreg). }
  destruct (ready_cases _ _ _ !! _) as [[[|resp|t]| |]|]; cbn [fst snd]; world_simpl;
    try exact Hw.
  unfold etcdserver.Trigger. destruct (w (at_wake ctx r data σ) !! ID r); world_simpl; exact Hw.
Qed.

Lemma Handle_server_idgen a r ctx σ :
  idgen_st (snd (Handle_server r ctx a σ)) = idgen_st σ.
Proof.
  unfold etcdserver.Handle.
  set (r' := if String.eqb (Method r) "GET" && Quorum r then set_Method "QGET" r else r).
  unfold bind.
  assert (Hprr : forall A (k : Response * option error -> M World A),
             (forall res t, snd (k res t) = t) ->
             idgen_st (snd (match processRaftRequest a ctx r' σ with
                            | (Ret res, t) => k res t
                            | (Panic v, t) => (Panic v, t)
                            | (Exit c, t) => (Exit c, t)
                            | (Blocked, t) => (Blocked, t)
                            end)) = idgen_st σ).
  { intros A k Hk. assert (Hi := processRaftRequest_idgen a ctx r' σ).
    destruct (processRaftRequest a ctx r' σ) as [[res|v|c|] t]; cbn [snd] in *;
      [rewrite Hk |..]; exact Hi. }
  destruct (String.eqb (Method r') "POST"); [apply Hprr; reflexivity |].
  destruct (String.eqb (Method r') "PUT"); [apply Hprr; reflexivity |].
  destruct (String.eqb (Method r') "DELETE"); [apply Hprr; reflexivity |].
  destruct (String.eqb (Method r') "QGET"); [apply Hprr; reflexivity |].
  destruct (String.eqb (Method r') "GET").
  { cbn [Get etcdserver.reqV2HandlerEtcdServer_handler].
    unfold etcdserver.reqV2HandlerStore_Get, bind, on_store, ret.
    destruct (Wait r').
    - destruct (store_Watch _ _ _ _ _ _ _) as [[wc err] st]. reflexivity.
    - destruct (store_Get _ _ _ _ _ _) as [[ev err] st]. reflexivity. }
  destruct (String.eqb (Method r') "HEAD").
  { cbn [Head etcdserver.reqV2HandlerEtcdServer_handler].
    unfold etcdserver.reqV2HandlerStore_Head, bind, on_store, ret.
    destruct (store_Get _ _ _ _ _ _) as [[ev err] st]. reflexivity. }
  reflexivity.
Qed.

(** X12: [Do] never looks at the ID that its caller put in the request,
    and every call takes exactly one id from the generator, whether the
    call returns, panics or stays suspended, and whatever the kind of the
    request. *)
Theorem Do_takes_one_fresh_id srv ctx r σ :
  (forall n, Do srv ctx (set_ID n r) σ = Do srv ctx r σ) /\
  idgen_st (snd (Do srv ctx r σ)) = snd (idutil_Next (idgen_st σ)).
Proof.
  split; [intros n; reflexivity |].
  unfold etcdserver.Do, bind at 1, etcdserver.reqIDGen_Next.
  destruct (idutil_Next (idgen_st σ)) as [id g]. cbn [snd].
  unfold bind at 1.
  match goal with
  | |- context [Handle ?S ?I ?r0 ?c ?h ?st] =>
      assert (Hi := Handle_server_idgen h r0 c st);
      destruct (Handle S I r0 c h st) as [[[r' [resp err]]|v|c0|] t]
  end; cbn [snd] in *; exact Hi.
Qed.

(** X13: the two ways in which [Do] fails before anything is registered or
    proposed: for a Method that is not known, and for a request of a
    consensus kind that cannot be marshalled, it returns the error with an
    otherwise empty Response that carries the term and the committed index,
    and the only thing that has changed is the generator, which has lost
    an id. *)
Theorem Do_fails_without_side_effects srv ctx r σ id g :
  idutil_Next (idgen_st σ) = (id, g) ->
  (Method r ∉ known_methods ->
   Do srv ctx r σ =
   (Ret (set_Term_Index (term σ) (committedIndex σ) Response_zero, Some ErrUnknownMethod),
    upd_idgen_st Store IDGen (fun _ => g) σ)) /\
  (forall data e,
      Method r ∈ consensus_methods -> Marshal (set_ID id r) = (data, Some e) ->
      Do srv ctx r σ =
      (Ret (set_Term_Index (term σ) (committedIndex σ) Response_zero, Some e),
       upd_idgen_st Store IDGen (fun _ => g) σ)).
Proof.
  intros Hnext. split.
  - intros Hm. unfold known_methods in Hm. rewrite !not_elem_of_cons in Hm.
    destruct Hm as (H1 & H2 & H3 & H4 & H5 & H6 & _).
    unfold etcdserver.Do, bind at 1, etcdserver.reqIDGen_Next. rewrite Hnext.
    unfold bind at 1.
    rewrite (Handle_other_kind Store IDGen) by (left; exact H5).
    cbn [Method set_ID].
    apply String.eqb_neq in H1, H2, H3, H4, H5, H6.
    rewrite H1, H2, H3, H4, H5, H6. reflexivity.
  - intros data e Hm HM.
    assert (HG : Method r <> "GET").
    { intros HG. rewrite HG in Hm. unfold consensus_methods in Hm.
      rewrite !elem_of_cons, elem_of_nil in Hm.
      destruct Hm as [H|[H|[H|[H|[]]]]]; discriminate. }
    unfold etcdserver.Do, bind at 1, etcdserver.reqIDGen_Next. rewrite Hnext.
    unfold bind at 1.
    rewrite (Handle_other_kind Store IDGen) by (left; exact HG).
    cbn [Method set_ID].
    assert (Hprr : processRaftRequest
                     {| embedded := {| store := v2store Store srv; applier := applyV2 Store srv |};
                        s := srv |} ctx (set_ID id r)
                     (upd_idgen_st Store IDGen (fun _ => g) σ)
                   = (Ret (Response_zero, Some e), upd_idgen_st Store IDGen (fun _ => g) σ)).
    { unfold etcdserver.processRaftRequest. rewrite HM. reflexivity. }
    unfold consensus_methods in Hm. rewrite !elem_of_cons, elem_of_nil in Hm.
    destruct Hm as [H|[H|[H|[H|[]]]]]; rewrite H; cbn [String.eqb Ascii.eqb Bool.eqb];
      cbn [Post Put Delete QGet etcdserver.reqV2HandlerEtcdServer_handler];
      unfold bind at 1; rewrite Hprr; reflexivity.
Qed.

(** X18: a local read through [Do], that is a HEAD or a GET without Quorum
    and without Wait, is answered from the store at once, whatever the
    state of the context and of the server (a context that is done or a
    server that is stopping do not stop it): the Response carries the event
    of the store with the term and the committed index, the error is the
    one of the store, and besides the store only the generator of ids has
    changed. *)
Theorem Do_local_read srv ctx r σ id g ev err st :
  idutil_Next (idgen_st σ) = (id, g) ->
  Method r = "HEAD" \/ (Method r = "GET" /\ Quorum r = false /\ Wait r = false) ->
  store_Get Store (v2store Store srv) (Path r) (Recursive r) (Sorted r) (store_st σ)
    = ((ev, err), st) ->
  Do srv ctx r σ =
  (Ret ({| Term := term σ; Index := committedIndex σ; Event := ev; Watcher := None;
           Err := None |}, err),
   upd_store_st Store IDGen (fun _ => st) (upd_idgen_st Store IDGen (fun _ => g) σ)).
Proof.
  intros Hnext Hkind Hget.
  unfold etcdserver.Do, bind at 1, etcdserver.reqIDGen_Next. rewrite Hnext.
  unfold bind at 1.
  destruct Hkind as [HH|(HG & HQ & HW)].
  - rewrite (Handle_other_kind Store IDGen) by (left; cbn [Method set_ID]; rewrite HH; discriminate).
    cbn [Method set_ID]. rewrite HH. cbn [String.eqb Ascii.eqb Bool.eqb].
    cbn [Head etcdserver.reqV2HandlerEtcdServer_handler embedded store].
    unfold etcdserver.reqV2HandlerStore_Head, bind, on_store, ret, get.
    cbn [Path Recursive Sorted set_ID store]. world_simpl. rewrite Hget. reflexivity.
  - rewrite (Handle_other_kind Store IDGen) by (right; exact HQ).
    cbn [Method set_ID]. rewrite HG. cbn [String.eqb Ascii.eqb Bool.eqb].
    cbn [Get etcdserver.reqV2HandlerEtcdServer_handler embedded store].
    unfold etcdserver.reqV2HandlerStore_Get, bind, on_store, ret, get.
    cbn [Path Recursive Sorted Wait set_ID store]. rewrite HW. world_simpl. rewrite Hget.
    reflexivity.
Qed.

End server.

Lemma Do_local_read_witness :
  sample_Do 1%nat (sample_request "GET" false)
    (upd_stopping unit N (fun _ => true) (sample_state [EnvStop]))
  = (Ret ({| Term := 3; Index := 40; Event := Some (EventRef 1); Watcher := None; Err := None |},
          None),
     upd_store_st unit N (fun _ => tt)
       (upd_idgen_st unit N (fun _ => 7%N)
          (upd_stopping unit N (fun _ => true) (sample_state [EnvStop])))).
Proof.
  apply (Do_local_read unit N sample_Marshal sample_Next sample_parseProposeCtxErr sample_server
           1%nat (sample_request "GET" false)
           (upd_stopping unit N (fun _ => true) (sample_state [EnvStop])) 7%N 7%N);
    [reflexivity | right; repeat split | reflexivity].
Defined.

Lemma processRaftRequest_waits_without_events_witness :
  fst (sample_processRaftRequest 1%nat sample_put
         (sample_state [EnvTick 5; EnvRaft 4 50; EnvTrigger 9 INil; EnvCancel 2%nat Canceled]))
  = Blocked.
Proof.
  apply (processRaftRequest_waits_without_events unit N sample_Marshal sample_parseProposeCtxErr
           sample_handler 1%nat sample_put (fst (sample_Marshal sample_put))
           (sample_state [EnvTick 5; EnvRaft 4 50; EnvTrigger 9 INil; EnvCancel 2%nat Canceled]));
    try reflexivity.
  - apply table_wf_sample.
  - repeat constructor; discriminate.
Defined.

Lemma delivery_wakes_caller_witness :
  fst (sample_processRaftRequest 1%nat sample_put
         (sample_state_picking 5 [EnvTick 5; EnvTrigger 7 (IResponse sample_response);
                                  EnvRaft 4 50]))
  = Ret (sample_response, None).
Proof.
  apply (delivery_wakes_caller unit N sample_Marshal sample_parseProposeCtxErr
           sample_handler 1%nat sample_put (fst (sample_Marshal sample_put))
           (sample_state_picking 5 [EnvTick 5; EnvTrigger 7 (IResponse sample_response);
                                    EnvRaft 4 50])
           [EnvTick 5] (IResponse sample_response) [EnvRaft 4 50]);
    try reflexivity.
  - intros id ch H. cbn in H. rewrite lookup_empty in H. discriminate.
  - repeat constructor.
  - repeat constructor.
Defined.

Lemma cancellation_can_win_over_delivery_witness :
  let out := sample_processRaftRequest 1%nat sample_put
               (sample_state_picking 1 [EnvTrigger 7 (IResponse sample_response);
                                        EnvCancel 1%nat DeadlineExceeded]) in
  fst out = Ret (Response_zero, Some (ErrOther "etcdserver: request timed out")) /\
  chans (snd out) !! 0%nat = Some [IResponse sample_response].
Proof.
  intros out.
  assert (Hwf : table_wf (sample_state_picking 1 [EnvTrigger 7 (IResponse sample_response);
                                                  EnvCancel 1%nat DeadlineExceeded])).
  { intros id ch H. cbn in H. rewrite lookup_empty in H. discriminate. }
  destruct (cancellation_can_win_over_delivery unit N sample_Marshal sample_parseProposeCtxErr
              sample_handler 1%nat sample_put (fst (sample_Marshal sample_put))
              (sample_state_picking 1 [EnvTrigger 7 (IResponse sample_response);
                                       EnvCancel 1%nat DeadlineExceeded])
              [] sample_response [] DeadlineExceeded []
              Hwf eq_refl eq_refl eq_refl eq_refl eq_refl
              (Forall_nil_2 _) (Forall_nil_2 _) (Forall_nil_2 _))
    as [_ Hodd].
  destruct (Hodd eq_refl) as (Hret & Hbuf & _). split; [exact Hret | exact Hbuf].
Defined.

Lemma quorum_get_is_qget_witness :
  sample_Handle (sample_request "GET" true) 1%nat sample_handler (sample_state [EnvStop])
  = sample_Handle (set_Method "QGET" (sample_request "GET" true)) 1%nat sample_handler
      (sample_state [EnvStop]).
Proof.
  apply (quorum_get_is_qget unit N (sample_request "GET" true) 1%nat sample_handler
           (sample_state [EnvStop])); reflexivity.
Defined.

Lemma Do_fails_without_side_effects_witness :
  fst (sample_Do 1%nat (sample_request "PATCH" false) (sample_state []))
  = Ret (set_Term_Index 3 40 Response_zero, Some ErrUnknownMethod) /\
  fst (Do unit N failing_Marshal sample_Next sample_parseProposeCtxErr sample_server 1%nat
         (sample_request "PUT" false) (sample_state []))
  = Ret (set_Term_Index 3 40 Response_zero, Some (ErrOther "proto: required field not set")).
Proof.
  split.
  - destruct (Do_fails_without_side_effects unit N sample_Marshal sample_Next
                sample_parseProposeCtxErr sample_server 1%nat (sample_request "PATCH" false)
                (sample_state []) 7%N 7%N eq_refl) as [Hunknown _].
    unfold sample_Do. rewrite Hunknown; [reflexivity |].
    unfold known_methods. cbn [Method sample_request]. rewrite !not_elem_of_cons.
    repeat split; try discriminate. apply not_elem_of_nil.
  - destruct (Do_fails_without_side_effects unit N failing_Marshal sample_Next
                sample_parseProposeCtxErr sample_server 1%nat (sample_request "PUT" false)
                (sample_state []) 7%N 7%N eq_refl) as [_ Hmarshal].
    rewrite (Hmarshal [] (ErrOther "proto: required field not set")); [reflexivity | | reflexivity].
    unfold consensus_methods. cbn [Method sample_request]. rewrite !elem_of_cons. auto.
Defined.

End etcdserver_extra.

(** * Properties of package v3rpc *)

Module v3rpc_spec.
Import v3rpc.

(** ** Strings *)

Lemma append_cons (c : Ascii.ascii) (a b : string) : String c a +:+ b = String c (a +:+ b).
Proof. reflexivity. Qed.

Lemma append_nil_l (b : string) : "" +:+ b = b.
Proof. reflexivity. Qed.

Lemma substring_all (s : string) : String.substring 0 (String.length s) s = s.
Proof. induction s as [|c s IH]; [reflexivity |]. cbn. f_equal. exact IH. Qed.

Lemma substring_prefix (p t : string) : String.substring 0 (String.length p) (p +:+ t) = p.
Proof.
  induction p as [|c p IH]; [destruct t; reflexivity |].
  rewrite append_cons. cbn. f_equal. exact IH.
Qed.

Lemma substring_suffix (u x : string) :
  String.substring (String.length u) (String.length x) (u +:+ x) = x.
Proof.
  induction u as [|c u IH]; [apply substring_all |]. rewrite append_cons. exact IH.
Qed.

Lemma length_append (a b : string) :
  String.length (a +:+ b) = (String.length a + String.length b)%nat.
Proof.
  induction a as [|c a IH]; [reflexivity |]. rewrite append_cons. cbn. f_equal. exact IH.
Qed.

Lemma substring_split (s : string) (n : nat) :
  (n <= String.length s)%nat ->
  s = String.substring 0 n s +:+ String.substring n (String.length s - n) s.
Proof.
  revert n. induction s as [|c s IH]; intros n Hn.
  - cbn in Hn. replace n with 0%nat by lia. reflexivity.
  - destruct n as [|n].
    + cbn [String.substring String.length Nat.sub]. rewrite append_nil_l.
      f_equal. symmetry. apply substring_all.
    + cbn in Hn. cbn [String.substring String.length Nat.sub]. rewrite append_cons.
      f_equal. apply IH. lia.
Qed.

Lemma HasPrefix_spec (s p : string) : HasPrefix s p = true <-> exists t, s = p +:+ t.
Proof.
  unfold HasPrefix. rewrite andb_true_iff, Nat.leb_le, String.eqb_eq. split.
  - intros [Hlen Hsub]. eexists. rewrite <- Hsub at 1. apply substring_split, Hlen.
  - intros [t ->]. rewrite length_append, substring_prefix. split; [lia | reflexivity].
Qed.

Lemma HasSuffix_spec (s x : string) : HasSuffix s x = true <-> exists u, s = u +:+ x.
Proof.
  unfold HasSuffix. rewrite andb_true_iff, Nat.leb_le, String.eqb_eq. split.
  - intros [Hlen Hsub].
    exists (String.substring 0 (String.length s - String.length x) s).
    assert (H := substring_split s (String.length s - String.length x)%nat ltac:(lia)).
    replace (String.length s - (String.length s - String.length x))%nat
      with (String.length x) in H by lia.
    rewrite Hsub in H. exact H.
  - intros [u ->]. rewrite length_append.
    replace (String.length u + String.length x - String.length x)%nat
      with (String.length u) by lia.
    rewrite substring_suffix. split; [lia | reflexivity].
Qed.

Lemma append_eq_cases (p t u x : string) :
  p +:+ t = u +:+ x ->
  (exists k, u = p +:+ k /\ t = k +:+ x) \/
  (exists c k, p = u +:+ String c k /\ x = String c k +:+ t).
Proof.
  revert u. induction p as [|a p IH]; intros u Heq.
  - left. exists u. split; [reflexivity | exact Heq].
  - destruct u as [|b u].
    + right. exists a, p. split; [reflexivity |]. symmetry. exact Heq.
    + rewrite !append_cons in Heq. injection Heq as -> Heq.
      destruct (IH u Heq) as [(k & -> & ->)|(c & k & -> & ->)].
      * left. exists k. split; reflexivity.
      * right. exists c, k. split; reflexivity.
Qed.

Lemma occurs_append (c : Ascii.ascii) (u k : string) : occurs c (u +:+ String c k) = true.
Proof.
  induction u as [|b u IH].
  - rewrite append_nil_l. cbn. rewrite Ascii.eqb_refl. reflexivity.
  - rewrite append_cons. cbn. rewrite IH. apply orb_true_r.
Qed.

Lemma append_assoc (a b c : string) : (a +:+ b) +:+ c = a +:+ (b +:+ c).
Proof.
  induction a as [|x a IH]; [reflexivity |]. rewrite !append_cons. f_equal. exact IH.
Qed.

Lemma stream_cancel_message (msg : string) :
  HasPrefix msg "stream error: " && HasSuffix msg "; CANCEL" = true <->
  exists mid, msg = "stream error: " +:+ mid +:+ "; CANCEL".
Proof.
  rewrite andb_true_iff, HasPrefix_spec, HasSuffix_spec. split.
  - intros [[t ->] [u Hu]]. apply append_eq_cases in Hu.
    destruct Hu as [(k & _ & ->)|(c & k & Hp & Hx)]; [exists k; reflexivity |].
    exfalso. rewrite append_cons in Hx. injection Hx as <- _.
    match type of Hp with
    | _ = _ +:+ String ?c _ => assert (H := occurs_append c u k)
    end.
    rewrite <- Hp in H. discriminate.
  - intros [mid ->]. split; [eexists; reflexivity |].
    exists ("stream error: " +:+ mid). symmetry. apply append_assoc.
Qed.

(** ** togRPCError *)

Section errors.

Variable Error : error -> string.
Variable rpctypes_status : rpctypes_error -> Code * string.

Local Abbreviation togRPCError := (togRPCError Error).
Local Abbreviation FromError := (FromError rpctypes_status).
Local Abbreviation isClientCtxErr := (isClientCtxErr rpctypes_status).

Lemma map_lookup_not_key (m : list (error * error)) (k : error) :
  Forall (fun kv => fst kv <> k) m -> map_lookup m k = None.
Proof.
  induction 1 as [|[k' v] m Hk Hm IH]; [reflexivity |].
  cbn [map_lookup]. rewrite IH. cbn [fst] in Hk. rewrite bool_decide_false by congruence.
  reflexivity.
Qed.

Lemma toGRPCErrorMap_keys : Forall (fun kv => exists s, fst kv = Sentinel s) toGRPCErrorMap.
Proof. unfold toGRPCErrorMap. repeat constructor; eexists; reflexivity. Qed.

Lemma togRPCError_not_key (err : error) :
  (forall s, err <> Sentinel s) -> (forall t m, err <> Unhashable t m) ->
  togRPCError (Some err) = Ret (StatusError codes_Unknown (Error err)).
Proof.
  intros Hns Hnu. unfold v3rpc.togRPCError.
  rewrite !bool_decide_false by apply Hns. cbn [orb].
  assert (Hidx : map_index toGRPCErrorMap (Some err) = Ret (map_lookup toGRPCErrorMap err)).
  { destruct err; try reflexivity. exfalso. eapply Hnu. reflexivity. }
  rewrite Hidx, map_lookup_not_key; [reflexivity |].
  eapply Forall_impl; [apply toGRPCErrorMap_keys |].
  intros [k v] [s Hs] Heq. cbn [fst] in *. apply (Hns s). congruence.
Qed.

Lemma togRPCError_key (s : sentinel) :
  (togRPCError (Some (Sentinel s)) = Ret (Sentinel s) /\
   (s = context_Canceled \/ s = context_DeadlineExceeded)) \/
  (exists g, togRPCError (Some (Sentinel s)) = Ret (Rpc g) /\
             g <> rpctypes_ErrGRPCCanceled /\ g <> rpctypes_ErrGRPCDeadlineExceeded).
Proof.
  destruct s;
    first [ left; split; [reflexivity | auto; fail]
          | right; eexists; split; [vm_compute; reflexivity | split; discriminate] ].
Qed.

(** X14: the two errors of package context are returned as they are, before
    the table is looked at, so that the values that the table holds for
    them, ErrGRPCCanceled and ErrGRPCDeadlineExceeded, are never returned,
    for any error. *)
Theorem togRPCError_context_errors_pass :
  togRPCError (Some (Sentinel context_Canceled)) = Ret (Sentinel context_Canceled) /\
  togRPCError (Some (Sentinel context_DeadlineExceeded))
    = Ret (Sentinel context_DeadlineExceeded) /\
  forall err,
    togRPCError err <> Ret (Rpc rpctypes_ErrGRPCCanceled) /\
    togRPCError err <> Ret (Rpc rpctypes_ErrGRPCDeadlineExceeded).
Proof.
  split; [reflexivity |]. split; [reflexivity |].
  intros [err|]; [| split; discriminate].
  destruct err as [s|g|c msg|msg|t msg];
    try (rewrite togRPCError_not_key by discriminate; split; discriminate);
    [| split; discriminate].
  destruct (togRPCError_key s) as [[-> _]|(g & -> & Hc & Hd)]; split; congruence.
Qed.

(** X15: only the errors that are keys of the table are translated. Any
    other error that can be hashed becomes a status with code Unknown and
    the text of the error; this includes the values of package rpctypes, so
    that translating the result of a translation loses its code. *)
Theorem togRPCError_translates_keys_only :
  (forall err, (forall s, err <> Sentinel s) -> (forall t m, err <> Unhashable t m) ->
               togRPCError (Some err) = Ret (StatusError codes_Unknown (Error err))) /\
  (forall s g, togRPCError (Some (Sentinel s)) = Ret (Rpc g) ->
               togRPCError (Some (Rpc g)) = Ret (StatusError codes_Unknown (Error (Rpc g)))).
Proof.
  split; [exact togRPCError_not_key |].
  intros s g _. apply togRPCError_not_key; discriminate.
Qed.


(** X16: two different keys of the table are translated to different
    values, except for the two errors of a member that is gone,
    ErrIDRemoved and ErrIDNotFound of package membership, which both give
    ErrGRPCMemberNotFound. *)
Theorem togRPCError_injective_on_keys (s1 s2 : sentinel) :
  togRPCError (Some (Sentinel s1)) = togRPCError (Some (Sentinel s2)) ->
  s1 = s2 \/ (member_gone s1 /\ member_gone s2).
Proof.
  unfold member_gone.
  destruct s1, s2; vm_compute; intros H;
    first [ left; reflexivity
          | discriminate H
          | right; split; [left + right; reflexivity | left + right; reflexivity] ].
Qed.

(** ** isClientCtxErr *)

(** X17: [isClientCtxErr] holds exactly when the context has an error, or
    when the error carries a gRPC status whose code is Canceled or
    DeadlineExceeded, or whose code is Unavailable with the message
    "client disconnected" or a message made of "stream error: ", any text,
    and "; CANCEL". An error without a status, and a nil error, are not
    client errors unless the context has an error. *)
Theorem isClientCtxErr_spec (ctxErr err : option error) :
  isClientCtxErr ctxErr err = true <->
  ctxErr <> None \/
  exists code msg,
    FromError err = Some (code, msg) /\
    (code = codes_Canceled \/ code = codes_DeadlineExceeded \/
     (code = codes_Unavailable /\
      (msg = "client disconnected" \/
       exists mid, msg = "stream error: " +:+ mid +:+ "; CANCEL"))).
Proof.
  unfold v3rpc.isClientCtxErr. destruct ctxErr as [e|].
  { split; [intros _; left; discriminate | reflexivity]. }
  destruct (FromError err) as [[code msg]|].
  2:{ split; [discriminate | intros [H|(c & m & H & _)]; [contradiction | discriminate]]. }
  split.
  - intros H. right. exists code, msg. split; [reflexivity |].
    destruct code; try discriminate; auto.
    right; right. split; [reflexivity |].
    destruct (String.eqb_spec msg "client disconnected") as [Heq|Hne]; [left; exact Heq |].
    right. apply stream_cancel_message.
    destruct (HasPrefix msg "stream error: " && HasSuffix msg "; CANCEL"); [reflexivity | discriminate].
  - intros [H|(c & m & [= -> ->] & Hc)]; [contradiction |].
    destruct Hc as [->|[->|[-> Hm]]]; try reflexivity.
    destruct Hm as [->|Hm]; [reflexivity |].
    apply stream_cancel_message in Hm. rewrite Hm.
    destruct (String.eqb m "client disconnected"); reflexivity.
Qed.

End errors.

Lemma togRPCError_injective_on_keys_witness :
  member_gone membership_ErrIDRemoved /\ member_gone membership_ErrIDNotFound.
Proof.
  destruct (togRPCError_injective_on_keys sample_Error membership_ErrIDRemoved
              membership_ErrIDNotFound eq_refl) as [H|H]; [discriminate H | exact H].
Defined.

End v3rpc_spec.
